(** * TGpars: the collection jobs of [src/main.py], embedded and verified

    The development follows the Python source of the Telegram parser:

    - Python [str] values are lists of Unicode code points, so that
      [strip], [replace], [split], [startswith] and slicing are the ones
      of Python and not byte-level approximations;
    - the worker threads ([TelegramParserThread] and its four subclasses)
      are programs of a small monad that threads the thread's fields,
      raises and catches exceptions and logs, in order, every Qt signal
      emitted and every call made on the Telethon client;
    - everything the thread cannot decide itself (the Telethon client, the
      answers typed into the dialogs, the moment [stop] is called) is read
      from a [World]. *)

From Stdlib Require Import ZArith NArith List String Ascii DecimalString Lia.
From stdpp Require Import base decidable list gmap.
Import ListNotations.

Local Open Scope bool_scope.
Local Open Scope list_scope.

(* ===================================================================== *)
(** ** Python strings *)
(* ===================================================================== *)

Module PyStr.

(** A character is a code point, a string the list of its characters. *)
Definition char := N.
Definition str := list char.

(** The bytes of a source-text literal. *)
Definition bytes_of (s : string) : list N :=
  List.map N_of_ascii (list_ascii_of_string s).

(** UTF-8 decoding of a literal of this file ([pending] continuation
    bytes are still expected for the code point accumulated in [acc]). *)
Fixpoint utf8_decode (pending : nat) (acc : N) (bs : list N) : str :=
  match bs with
  | [] => []
  | b :: bs' =>
    match pending with
    | O =>
      if (b <? 128)%N then b :: utf8_decode 0 0%N bs'
      else if (b <? 224)%N then utf8_decode 1 (b - 192)%N bs'
      else if (b <? 240)%N then utf8_decode 2 (b - 224)%N bs'
      else utf8_decode 3 (b - 240)%N bs'
    | S O => (acc * 64 + (b - 128))%N :: utf8_decode 0 0%N bs'
    | S k => utf8_decode k (acc * 64 + (b - 128))%N bs'
    end
  end.

(** [u8 "text"] is the Python string written ["text"] in the source. *)
Definition u8 (s : string) : str := utf8_decode 0 0%N (bytes_of s).

Definition c_slash : char := 47%N.
Definition c_question : char := 63%N.

(** [str.isspace] on one character: the whitespace that [str.strip()]
    removes. *)
Definition is_space (c : char) : bool :=
  ((9 <=? c) && (c <=? 13) || (28 <=? c) && (c <=? 32)
   || (c =? 133) || (c =? 160) || (c =? 5760)
   || (8192 <=? c) && (c <=? 8202)
   || (c =? 8232) || (c =? 8233) || (c =? 8239) || (c =? 8287)
   || (c =? 12288))%N.

Fixpoint lstrip (s : str) : str :=
  match s with
  | [] => []
  | c :: s' => if is_space c then lstrip s' else s
  end.

Definition rstrip (s : str) : str := rev (lstrip (rev s)).

(** [s.strip()] *)
Definition strip (s : str) : str := rstrip (lstrip s).

(** [s.startswith(p)] *)
Fixpoint startswith (p s : str) : bool :=
  match p, s with
  | [], _ => true
  | _ :: _, [] => false
  | a :: p', b :: s' => (a =? b)%N && startswith p' s'
  end.

(** [p in s] for a one-character [p]. *)
Definition contains_char (c : char) (s : str) : bool :=
  existsb (N.eqb c) s.

(** [s.replace(old, new)] for a non-empty [old]: occurrences are found
    left to right and do not overlap.  [skip] characters of the
    occurrence just replaced are still to be dropped. *)
Fixpoint replace_from (old new : str) (skip : nat) (s : str) : str :=
  match s with
  | [] => []
  | c :: s' =>
    match skip with
    | S k => replace_from old new k s'
    | O =>
      if startswith old s
      then new ++ replace_from old new (length old - 1) s'
      else c :: replace_from old new 0 s'
    end
  end.

(** [s.replace(old, new)]; with an empty [old] Python puts [new] around
    every character. *)
Definition replace (old new s : str) : str :=
  match old with
  | [] => new ++ flat_map (fun c => c :: new) s
  | _ :: _ => replace_from old new 0 s
  end.

(** [s.split(sep)] for a one-character [sep]: never the empty list. *)
Fixpoint split (sep : char) (s : str) : list str :=
  match s with
  | [] => [[]]
  | c :: s' =>
    if (c =? sep)%N then [] :: split sep s'
    else match split sep s' with
         | h :: t => (c :: h) :: t
         | [] => [[c]]
         end
  end.

(** [str(z)] and [f"{z}"] for an [int]. *)
Definition of_Z (z : Z) : str :=
  bytes_of (NilEmpty.string_of_int (Z.to_int z)).

(** Equality test on strings, for dictionary keys. *)
Fixpoint eqb (s t : str) : bool :=
  match s, t with
  | [], [] => true
  | a :: s', b :: t' => (a =? b)%N && eqb s' t'
  | _, _ => false
  end.

(** Truthiness of a string. *)
Definition truthy (s : str) : bool :=
  match s with [] => false | _ :: _ => true end.

(** [a or b] on strings whose left operand may be [None]. *)
Definition or_else (a : option str) (b : str) : str :=
  match a with
  | Some s => if truthy s then s else b
  | None => b
  end.

(** [f"{x}"] for a field that holds a string or [None]. *)
Definition fmt_opt (a : option str) : str :=
  match a with
  | Some s => s
  | None => u8 "None"
  end.

Definition is_digit (c : char) : bool := ((48 <=? c) && (c <=? 57))%N.

(** The value of a run of ASCII decimal digits. *)
Definition digits_value (s : str) : Z :=
  fold_left (fun acc c => (acc * 10 + (Z.of_N c - 48))%Z) s 0%Z.

End PyStr.
Export PyStr.

(* ===================================================================== *)
(** ** Values of the Telethon client that the code reads *)
(* ===================================================================== *)

(** Python exceptions; [str(e)] is [exn_text e]. *)
Inductive Exn :=
| AttributeError (msg : str)
| ValueError (msg : str)
| RemoteError (msg : str).

Definition exn_text (e : Exn) : str :=
  match e with
  | AttributeError m | ValueError m | RemoteError m => m
  end.

(** What evaluating an expression or awaiting a call gives: a value, an
    exception, or nothing at all when it never returns. *)
Inductive Res (A : Type) :=
| Ok (a : A)
| Raise (e : Exn)
| Hang.
Arguments Ok {A} a.
Arguments Raise {A} e.
Arguments Hang {A}.

(** A [datetime] is read only through
    [strftime("%Y-%m-%d %H:%M:%S")]; it is represented by that text. *)
Record datetime := { strftime_ymd_hms : str }.

(** [telethon.tl.types.TypeUserStatus]; [UserStatusOther] stands for any
    class that is none of the six imported ones. *)
Inductive UserStatus :=
| UserStatusOnline
| UserStatusOffline (was_online : datetime)
| UserStatusRecently
| UserStatusLastWeek
| UserStatusLastMonth
| UserStatusEmpty
| UserStatusOther (class_name : str).

Record User := {
  user_id : Z;
  username : option str;
  first_name : option str;
  last_name : option str;
  phone : option str;
  status : option UserStatus;
  bot : bool;
  verified : bool;
  scam : bool;
  premium : bool }.

(** What [get_entity] resolves to.  Only channels and chats have a
    [title]. *)
Inductive Entity :=
| EntChannel (id : Z) (title : str)
| EntChat (id : Z) (title : str)
| EntUser (u : User).

(** [getattr(entity, 'title', default)] *)
Definition getattr_title (entity : Entity) (default : str) : str :=
  match entity with
  | EntChannel _ t | EntChat _ t => t
  | EntUser _ => default
  end.

(** [isinstance(entity, types.Channel)] *)
Definition is_channel (entity : Entity) : bool :=
  match entity with EntChannel _ _ => true | _ => false end.

(** The sender of a message is a user or a channel; a channel has an
    [id] and a [username] but neither [first_name] nor [last_name]. *)
Inductive Sender :=
| SenderUser (u : User)
| SenderChannel (id : Z) (uname : option str).

Record Message := {
  msg_id : Z;
  msg_text : option str;          (* m.text *)
  msg_message : option str;       (* m.message *)
  msg_date : datetime;            (* m.date *)
  msg_media : option str;         (* type(m.media).__name__, None when m.media is falsy *)
  msg_get_sender : Res (option Sender) (* await m.get_sender() *) }.

Inductive Peer :=
| PeerUser (uid : Z)
| PeerChat (chat_id : Z)
| PeerChannel (channel_id : Z).

Inductive Reaction :=
| ReactionEmoji (emoticon : str)
| ReactionCustomEmoji (document_id : Z)
| ReactionEmpty
| ReactionPaid.

Record MessagePeerReaction := {
  peer_id : Peer;
  reaction : Reaction }.

(** The answer to [GetMessageReactionsListRequest]. *)
Record ReactionsList := {
  resp_reactions : list MessagePeerReaction;
  resp_users : list User }.

(** An asynchronous iterator: the items it yields, then either the end
    of the iteration or an exception. *)
Record Iteration (A : Type) := {
  it_items : list A;
  it_ending : option Exn }.
Arguments it_items {A} i.
Arguments it_ending {A} i.

(* ===================================================================== *)
(** ** Result records *)
(* ===================================================================== *)

(** The values stored in the result dictionaries. *)
Inductive Value :=
| VInt (z : Z)
| VStr (s : str)
| VNone.

(** A result record: a [dict], whose keys keep their insertion order. *)
Definition Row := list (str * Value).

(** [row[key]] *)
Fixpoint row_get (key : str) (row : Row) : option Value :=
  match row with
  | [] => None
  | (k, v) :: row' => if PyStr.eqb k key then Some v else row_get key row'
  end.

(** A field that holds a string or [None], stored as it is. *)
Definition opt_value (o : option str) : Value :=
  match o with
  | Some s => VStr s
  | None => VNone
  end.

(** ['Да' if flag else 'Нет'] *)
Definition yes_no (flag : bool) : Value :=
  VStr (if flag then u8 "Да" else u8 "Нет").

(* ===================================================================== *)
(** ** [get_user_status_text] *)
(* ===================================================================== *)

Definition get_user_status_text (status_obj : option UserStatus) : str :=
  match status_obj with
  | None => u8 "Скрыто"
  | Some UserStatusOnline => u8 "Онлайн"
  | Some (UserStatusOffline _) => u8 "Оффлайн"
  | Some UserStatusRecently => u8 "Недавно"
  | Some UserStatusLastWeek => u8 "Был на этой неделе"
  | Some UserStatusLastMonth => u8 "Был в этом месяце"
  | Some UserStatusEmpty => u8 "Скрыто"
  | Some (UserStatusOther _) => u8 "Давно"
  end.

(* ===================================================================== *)
(** ** Link handling *)
(* ===================================================================== *)

(** [link.replace("https://t.me/", "").replace("t.me/", "")] *)
Definition drop_url_prefixes (link : str) : str :=
  replace (u8 "t.me/") [] (replace (u8 "https://t.me/") [] link).

(** The post-link splitting that [CommentsParserThread.parse] and
    [ReactionsParserThread.parse] both perform (lines 344-349 and
    406-411): [None] when [len(parts) < 2], else
    [(channel_part, msg_id_str)]. *)
Definition split_post_link (link : str) : option (str * str) :=
  let link := drop_url_prefixes (strip link) in
  let parts := split c_slash link in
  match parts with
  | channel_part :: part1 :: _ =>
      Some (channel_part, hd [] (split c_question part1))
  | _ => None
  end.

(** [int(s)]: a non-empty run of at most 4300 ASCII digits is read in
    base ten; every other argument (signs, underscores, blanks, digits
    of other scripts, longer runs, malformed text) is left to the
    interpreter, [int_other]. *)
Definition py_int (int_other : str -> Res Z) (s : str) : Res Z :=
  if truthy s && forallb is_digit s && (length s <=? 4300)
  then Ok (digits_value s)
  else int_other s.

(** Lines 344-350 and 406-412 together: the target of a post link,
    [None] when the link has fewer than two parts, else [channel_part]
    and [msg_id = int(msg_id_str)]. *)
Definition parse_post_link (int_other : str -> Res Z) (link : str)
    : Res (option (str * Z)) :=
  match split_post_link link with
  | None => Ok None
  | Some (channel_part, msg_id_str) =>
      match py_int int_other msg_id_str with
      | Ok msg_id => Ok (Some (channel_part, msg_id))
      | Raise e => Raise e
      | Hang => Hang
      end
  end.

(* ===================================================================== *)
(** ** The world and what a job leaves behind *)
(* ===================================================================== *)

(** Calls made on the Telethon client (and on the messages it returned). *)
Inductive Call :=
| CallConnect
| CallIsUserAuthorized
| CallGetMe
| CallSendCodeRequest (phone_number : str)
| CallSignIn (phone_number code : str)
| CallSignInPassword (password : option str)
| CallGetEntity (name : str)
| CallGetFullChannel (entity : Entity)
| CallIterParticipants (entity : Entity) (admins_only : bool) (limit : option Z)
| CallIterMessages (entity : Entity) (limit : Z) (reply_to : option Z)
| CallGetSender (message_id : Z)
| CallGetMessageReactionsList (entity : Entity) (id limit : Z)
| CallDisconnect.

(** What a job does that can be seen from outside, in order: the Qt
    signals it emits, the calls it makes, and its sleeps (in
    milliseconds). *)
Inductive Event :=
| progress_signal (text : str)
| progress_value (n : Z)
| finished_signal (title : str) (rows : list Row)
| error_signal (text : str)
| auth_code_needed (text : str)
| auth_password_needed
| Remote (c : Call)
| Sleep (ms : Z).

(** How the window answers a prompt: the dialog handler stores a text in
    the thread's slot, seen by the thread after [polls] rounds of its
    waiting loop; or the dialog is never closed. *)
Inductive Reply :=
| Answer (polls : nat) (text : str)
| Unanswered.

Inductive SignInResult :=
| SignedIn
| SessionPasswordNeededError
| SignInError (e : Exn).

(** Everything a job reads from outside.  [stop_after = Some n]: [stop()]
    is called when the thread has read [is_running] [n] times, so that
    the reads numbered [n] and later see [False]; [None]: nobody calls
    [stop()].  [flood_waits] are the [FloodWaitError]s (their seconds)
    that successive [send_code_request] calls meet before one of them
    is answered by [send_code_request]. *)
Record World := {
  int_other : str -> Res Z;
  stop_after : option nat;
  dialog_reply : nat -> Reply;
  connect : Res unit;
  is_user_authorized : Res bool;
  get_me : Res (option User);
  flood_waits : list Z;
  send_code_request : str -> Res unit;
  sign_in : str -> str -> SignInResult;
  sign_in_password : option str -> Res unit;
  get_entity : str -> Res Entity;
  get_full_channel : Entity -> Res (option Z);
  iter_participants : Entity -> bool -> option Z -> Iteration User;
  iter_messages : Entity -> Z -> option Z -> Iteration Message;
  get_message_reactions_list : Entity -> Z -> Z -> Res ReactionsList;
  disconnect : Res unit }.

(** The value of [is_running] at its read number [k] (from 0). *)
Definition flag_value (w : World) (k : nat) : bool :=
  match stop_after w with
  | None => true
  | Some n => k <? n
  end.

(** The fields of [TelegramParserThread] that change during a job.
    [client]: [None] before [TelegramClient(...)] is built, then whether
    it is connected.  [flag_reads] counts the reads of [is_running],
    [prompts] the dialogs asked for. *)
Record St := {
  client : option bool;
  auth_code : option str;
  auth_password : option str;
  flag_reads : nat;
  prompts : nat }.

(** The fields as [__init__] leaves them. *)
Definition init_st : St :=
  {| client := None; auth_code := None; auth_password := None;
     flag_reads := 0; prompts := 0 |}.

Definition set_client (c : option bool) (st : St) : St :=
  {| client := c; auth_code := auth_code st;
     auth_password := auth_password st;
     flag_reads := flag_reads st; prompts := prompts st |}.

Definition set_auth_code (c : option str) (st : St) : St :=
  {| client := client st; auth_code := c;
     auth_password := auth_password st;
     flag_reads := flag_reads st; prompts := prompts st |}.

Definition set_auth_password (p : option str) (st : St) : St :=
  {| client := client st; auth_code := auth_code st;
     auth_password := p;
     flag_reads := flag_reads st; prompts := prompts st |}.

Definition count_read (st : St) : St :=
  {| client := client st; auth_code := auth_code st;
     auth_password := auth_password st;
     flag_reads := S (flag_reads st); prompts := prompts st |}.

Definition count_prompt (st : St) : St :=
  {| client := client st; auth_code := auth_code st;
     auth_password := auth_password st;
     flag_reads := flag_reads st; prompts := S (prompts st) |}.

(* ===================================================================== *)
(** ** The monad of thread code *)
(* ===================================================================== *)

(** A piece of thread code: from the fields, a result, the new fields
    and the events of this piece, oldest first. *)
Definition M (A : Type) : Type := St -> Res A * St * list Event.

Definition ret {A} (a : A) : M A := fun st => (Ok a, st, []).

Definition bind {A B} (m : M A) (f : A -> M B) : M B := fun st =>
  match m st with
  | (Ok a, st1, t1) =>
      match f a st1 with (r, st2, t2) => (r, st2, t1 ++ t2) end
  | (Raise e, st1, t1) => (Raise e, st1, t1)
  | (Hang, st1, t1) => (Hang, st1, t1)
  end.

Declare Scope thread_scope.
Delimit Scope thread_scope with thread.
Notation "x <- m ;; k" := (bind m (fun x => k))
  (at level 100, m at next level, right associativity) : thread_scope.
Notation "m ;; k" := (bind m (fun _ => k))
  (at level 100, right associativity) : thread_scope.
Local Open Scope thread_scope.

Definition raise {A} (e : Exn) : M A := fun st => (Raise e, st, []).
Definition hang {A} : M A := fun st => (Hang, st, []).
Definition emit (e : Event) : M unit := fun st => (Ok tt, st, [e]).
Definition get : M St := fun st => (Ok st, st, []).
Definition modify (f : St -> St) : M unit := fun st => (Ok tt, f st, []).

(** The result of an expression that may raise. *)
Definition lift {A} (r : Res A) : M A := fun st => (r, st, []).

(** A call on the client: logged, then answered by the world. *)
Definition call {A} (c : Call) (r : Res A) : M A :=
  emit (Remote c) ;; lift r.

(** [try: m  except Exception as e: h e] *)
Definition try_except {A} (m : M A) (h : Exn -> M A) : M A := fun st =>
  match m st with
  | (Raise e, st1, t1) =>
      match h e st1 with (r, st2, t2) => (r, st2, t1 ++ t2) end
  | other => other
  end.

(** [try: m  finally: c] *)
Definition try_finally {A} (m : M A) (c : M unit) : M A := fun st =>
  match m st with
  | (Hang, st1, t1) => (Hang, st1, t1)
  | (r, st1, t1) =>
      match c st1 with
      | (Ok _, st2, t2) => (r, st2, t1 ++ t2)
      | (Raise e, st2, t2) => (Raise e, st2, t1 ++ t2)
      | (Hang, st2, t2) => (Hang, st2, t1 ++ t2)
      end
  end.

(** How a loop body ends: go on with the next item, or [break]. *)
Inductive Flow (S : Type) :=
| Continue (s : S)
| Break (s : S).
Arguments Continue {S} s.
Arguments Break {S} s.

(** [async for x in it: body], the loop variables being [s], as far as
    the loop gets: the items in order; the result is what the rounds
    made of the loop variables, and the exception the iterator ended
    with, if it was reached (a [break] leaves the loop before). *)
Fixpoint async_for_keep {A S} (items : list A) (ending : option Exn)
    (body : A -> S -> M (Flow S)) (s : S) : M (S * option Exn) :=
  match items with
  | [] => ret (s, ending)
  | x :: rest =>
      f <- body x s ;;
      match f with
      | Continue s' => async_for_keep rest ending body s'
      | Break s' => ret (s', None)
      end
  end.

(** [async for x in it: body]: the iterator's exception is raised. *)
Definition async_for {A S} (it : Iteration A)
    (body : A -> S -> M (Flow S)) (s : S) : M S :=
  r <- async_for_keep (it_items it) (it_ending it) body s ;;
  match snd r with
  | None => ret (fst r)
  | Some e => raise e
  end.

(** [for x in items: body] *)
Definition for_in {A S} (items : list A)
    (body : A -> S -> M (Flow S)) (s : S) : M S :=
  async_for {| it_items := items; it_ending := None |} body s.

(** [enumerate(items)] *)
Definition enumerate {A} (items : list A) : list (nat * A) :=
  combine (seq 0 (length items)) items.

(** [len(items)] *)
Definition len {A} (items : list A) : Z := Z.of_nat (length items).

(* ===================================================================== *)
(** ** [TelegramParserThread] *)
(* ===================================================================== *)

Module TelegramParserThread.

Section Thread.

Variable w : World.

(** Reading [self.is_running]. *)
Definition is_running : M bool := fun st =>
  (Ok (flag_value w (flag_reads st)), count_read st, []).

(** [ensure_client] *)
Definition ensure_client : M unit :=
  st <- get ;;
  match client st with
  | None => modify (set_client (Some false))
  | Some _ => ret tt
  end ;;
  st <- get ;;
  match client st with
  | Some true => ret tt
  | _ => call CallConnect (connect w) ;; modify (set_client (Some true))
  end.

(** [while slot is None and self.is_running: await asyncio.sleep(0.1)]
    when the dialog's answer reaches the slot after [d] more rounds.
    The slot is [None] on entry: it is [None] at first and set back to
    [None] after each use. *)
Fixpoint poll (arrive : St -> St) (d : nat) : M unit :=
  match d with
  | O => modify arrive
  | S d' =>
      r <- is_running ;;
      if r then emit (Sleep 100) ;; poll arrive d' else ret tt
  end.

(** The same loop when the dialog is never answered: only [stop()] ends
    it.  [budget] bounds the rounds. *)
Fixpoint poll_unanswered (budget : nat) : M unit :=
  match budget with
  | O => hang
  | S b =>
      r <- is_running ;;
      if r then emit (Sleep 100) ;; poll_unanswered b else ret tt
  end.

(** The waiting loop after a prompt; [store] is the dialog handler's
    assignment.  When [stop()] comes after [n] reads, [S n] rounds are
    more than the loop can make; when it never comes and the dialog is
    never answered either, the loop does not end. *)
Definition wait_dialog (store : str -> St -> St) : M unit :=
  st <- get ;;
  modify count_prompt ;;
  match dialog_reply w (prompts st) with
  | Answer d text => poll (store text) d
  | Unanswered =>
      poll_unanswered (match stop_after w with
                       | Some n => S n
                       | None => O
                       end)
  end.

(** [self.auth_code.strip()] *)
Definition read_auth_code : M str :=
  st <- get ;;
  match auth_code st with
  | Some c => ret (strip c)
  | None =>
      raise (AttributeError
               (u8 "'NoneType' object has no attribute 'strip'"))
  end.

(** [ensure_auth]; [floods] are the flood waits still to come. *)
Fixpoint ensure_auth (floods : list Z) : M bool :=
  ensure_client ;;
  authorized <- call CallIsUserAuthorized (is_user_authorized w) ;;
  if (authorized : bool) then
    me <- call CallGetMe (get_me w) ;;
    name <- match me with
            | Some u => ret (first_name u)
            | None =>
                raise (AttributeError
                  (u8 "'NoneType' object has no attribute 'first_name'"))
            end ;;
    emit (progress_signal (u8 "✅ Авторизован как: " ++ fmt_opt name)) ;;
    ret true
  else
    (* Need phone *)
    emit (auth_code_needed
            (u8 "Введите номер телефона (например: +1234567890)")) ;;
    wait_dialog (fun text => set_auth_code (Some text)) ;;
    r <- is_running ;;
    if negb r then ret false else
    phone_number <- read_auth_code ;;
    modify (set_auth_code None) ;;
    emit (progress_signal
            (u8 "📤 Отправляем код на " ++ phone_number ++ u8 "…")) ;;
    emit (Remote (CallSendCodeRequest phone_number)) ;;
    match floods with
    | seconds :: floods' =>
        emit (progress_signal
                (u8 "⏳ FloodWait: " ++ of_Z seconds ++ u8 " сек")) ;;
        emit (Sleep (seconds * 1000)) ;;
        ensure_auth floods'
    | [] =>
      match send_code_request w phone_number with
      | Hang => hang
      | Raise e =>
          emit (error_signal
                  (u8 "❌ Не удалось отправить код: " ++ exn_text e)) ;;
          ret false
      | Ok _ =>
        (* ask for code *)
        emit (auth_code_needed
                (u8 "Введите код из SMS/Telegram для " ++ phone_number)) ;;
        wait_dialog (fun text => set_auth_code (Some text)) ;;
        r <- is_running ;;
        if negb r then ret false else
        code <- read_auth_code ;;
        modify (set_auth_code None) ;;
        emit (Remote (CallSignIn phone_number code)) ;;
        match sign_in w phone_number code with
        | SignedIn =>
            emit (progress_signal (u8 "✅ Авторизация успешна")) ;;
            ret true
        | SessionPasswordNeededError =>
            (* Need 2FA password *)
            emit (progress_signal (u8 "🔐 Требуется пароль 2FA…")) ;;
            emit auth_password_needed ;;
            wait_dialog (fun text => set_auth_password (Some text)) ;;
            r <- is_running ;;
            if negb r then ret false else
            st <- get ;;
            let password := auth_password st in
            try_except
              (call (CallSignInPassword password)
                    (sign_in_password w password) ;;
               emit (progress_signal (u8 "✅ Авторизация с 2FA успешна")) ;;
               ret true)
              (fun pwd_error =>
                 emit (error_signal
                         (u8 "❌ Неверный пароль 2FA: "
                          ++ exn_text pwd_error)) ;;
                 ret false)
        | SignInError sign_err =>
            emit (error_signal
                    (u8 "❌ Ошибка авторизации: " ++ exn_text sign_err)) ;;
            ret false
        end
      end
    end.

(** [cleanup] *)
Definition cleanup : M unit :=
  st <- get ;;
  match client st with
  | Some true =>
      call CallDisconnect (disconnect w) ;;
      modify (set_client (Some false))
  | _ => ret tt
  end.

(** The handler that ends every [parse]:
    [except Exception as e: if self.is_running: self.error_signal.emit(...)]. *)
Definition critical (e : Exn) : M unit :=
  r <- is_running ;;
  if r then emit (error_signal (u8 "❌ Критическая ошибка: " ++ exn_text e))
  else ret tt.

(** The frame shared by the four [parse] methods:
    [try: body  except Exception as e: ...  finally: await self.cleanup()]. *)
Definition job (body : M unit) : M unit :=
  try_finally (try_except body critical) cleanup.

End Thread.

End TelegramParserThread.
Import TelegramParserThread.

(* ===================================================================== *)
(** ** The records of the four collectors *)
(* ===================================================================== *)

(** The dictionary that [MembersParserThread.parse] appends for [user]. *)
Definition member_row (admin_ids : gset Z) (user : User) : Row :=
  let last_online_str :=
    match status user with
    | Some (UserStatusOffline was_online) => strftime_ymd_hms was_online
    | _ => []
    end in
  [ (u8 "ID", VInt (user_id user));
    (u8 "Username", VStr (or_else (username user) []));
    (u8 "First Name", VStr (or_else (first_name user) []));
    (u8 "Last Name", VStr (or_else (last_name user) []));
    (u8 "Phone", VStr (or_else (phone user) []));
    (u8 "Status", VStr (get_user_status_text (status user)));
    (u8 "Last Online", VStr (or_else (Some last_online_str) (u8 "Скрыто")));
    (u8 "Is Bot", yes_no (bot user));
    (u8 "Is Verified", yes_no (verified user));
    (u8 "Is Scam", yes_no (scam user));
    (u8 "Is Premium", yes_no (premium user));
    (u8 "Is Admin", yes_no (bool_decide (user_id user ∈ admin_ids))) ].

(** [sender.id], [sender.username], [sender.first_name] and
    [sender.last_name]; a channel has no name fields. *)
Definition sender_id (s : Sender) : Z :=
  match s with
  | SenderUser u => user_id u
  | SenderChannel id _ => id
  end.

Definition sender_username (s : Sender) : option str :=
  match s with
  | SenderUser u => username u
  | SenderChannel _ uname => uname
  end.

Definition sender_first_name (s : Sender) : Res (option str) :=
  match s with
  | SenderUser u => Ok (first_name u)
  | SenderChannel _ _ =>
      Raise (AttributeError
               (u8 "'Channel' object has no attribute 'first_name'"))
  end.

Definition sender_last_name (s : Sender) : Res (option str) :=
  match s with
  | SenderUser u => Ok (last_name u)
  | SenderChannel _ _ =>
      Raise (AttributeError
               (u8 "'Channel' object has no attribute 'last_name'"))
  end.

(** Sequencing of expressions that may raise. *)
Definition and_then {A B} (r : Res A) (f : A -> Res B) : Res B :=
  match r with
  | Ok a => f a
  | Raise e => Raise e
  | Hang => Hang
  end.

(** The four author entries, common to message and comment records:
    [x if sender else ''] for each of them, in the order of the
    dictionary display. *)
Definition author_fields (sender : option Sender) : Res (list (str * Value)) :=
  match sender with
  | None =>
      Ok [ (u8 "Author ID", VStr []); (u8 "Username", VStr []);
           (u8 "First Name", VStr []); (u8 "Last Name", VStr []) ]
  | Some s =>
      and_then (sender_first_name s) (fun fn =>
      and_then (sender_last_name s) (fun ln =>
      Ok [ (u8 "Author ID", VInt (sender_id s));
           (u8 "Username", opt_value (sender_username s));
           (u8 "First Name", opt_value fn);
           (u8 "Last Name", opt_value ln) ]))
  end.

(** [m.text or m.message or ''] *)
Definition message_body (m : Message) : str :=
  or_else (msg_text m) (or_else (msg_message m) []).

(** The dictionary that [MessagesParserThread.parse] appends. *)
Definition message_row (m : Message) (sender : option Sender) : Res Row :=
  and_then (author_fields sender) (fun author =>
  Ok ([ (u8 "Message ID", VInt (msg_id m)) ] ++ author ++
      [ (u8 "Date", VStr (strftime_ymd_hms (msg_date m)));
        (u8 "Text", VStr (firstn 4096 (message_body m)));
        (u8 "Media Type", VStr (or_else (msg_media m) [])) ])).

(** The dictionary that [CommentsParserThread.parse] appends. *)
Definition comment_row (reply : Message) (sender : option Sender) : Res Row :=
  and_then (author_fields sender) (fun author =>
  Ok ([ (u8 "Comment ID", VInt (msg_id reply)) ] ++ author ++
      [ (u8 "Text", VStr (message_body reply));
        (u8 "Date", VStr (strftime_ymd_hms (msg_date reply))) ])).

(** [next((r.reaction.emoticon for r in reactions
           if r.peer_id.user_id == uid), '🧩')] *)
Fixpoint find_emoticon (reactions : list MessagePeerReaction) (uid : Z)
    : Res str :=
  match reactions with
  | [] => Ok (u8 "🧩")
  | r :: reactions' =>
      match peer_id r with
      | PeerUser id =>
          if (id =? uid)%Z then
            match reaction r with
            | ReactionEmoji emoticon => Ok emoticon
            | ReactionCustomEmoji _ =>
                Raise (AttributeError
                  (u8 "'ReactionCustomEmoji' object has no attribute 'emoticon'"))
            | ReactionEmpty =>
                Raise (AttributeError
                  (u8 "'ReactionEmpty' object has no attribute 'emoticon'"))
            | ReactionPaid =>
                Raise (AttributeError
                  (u8 "'ReactionPaid' object has no attribute 'emoticon'"))
            end
          else find_emoticon reactions' uid
      | PeerChat _ =>
          Raise (AttributeError
                   (u8 "'PeerChat' object has no attribute 'user_id'"))
      | PeerChannel _ =>
          Raise (AttributeError
                   (u8 "'PeerChannel' object has no attribute 'user_id'"))
      end
  end.

(** The dictionary that [ReactionsParserThread.parse] appends. *)
Definition reaction_row (emoji : str) (user : User) : Row :=
  [ (u8 "Emoji", VStr emoji);
    (u8 "User ID", VInt (user_id user));
    (u8 "Username", VStr (or_else (username user) []));
    (u8 "First Name", VStr (or_else (first_name user) []));
    (u8 "Last Name", VStr (or_else (last_name user) [])) ].

(* ===================================================================== *)
(** ** The four [parse] methods *)
(* ===================================================================== *)

Module MembersParserThread.

(** [MembersParserThread._clean_link] *)
Definition _clean_link (link : str) : str :=
  let link := strip link in
  let link := drop_url_prefixes link in
  let link := if startswith (u8 "@") link then skipn 1 link else link in
  let link := if contains_char c_slash link
              then hd [] (split c_slash link) else link in
  let link := if contains_char c_question link
              then hd [] (split c_question link) else link in
  link.

Section Parse.

Variable w : World.

(** Lines 200-206: the administrators' identifiers.  The loop runs
    inside [try: ... except Exception: pass], so that an exception of
    the iterator ends the loop and is dropped; [admin_ids] keeps what
    the rounds before have added. *)
Definition fetch_admin_ids (entity : Entity) : M (gset Z) :=
  let it := iter_participants w entity true None in
  emit (Remote (CallIterParticipants entity true None)) ;;
  r <- async_for_keep (it_items it) (it_ending it)
         (fun adm (admin_ids : gset Z) =>
            ret (Continue ({[ user_id adm ]} ∪ admin_ids)))
         ∅ ;;
  ret (fst r).

(** Lines 208-216: the participants, buffered. *)
Definition collect_members (entity : Entity) (limit : Z) : M (list User) :=
  emit (Remote (CallIterParticipants entity false (Some limit))) ;;
  async_for (iter_participants w entity false (Some limit))
    (fun user members =>
       r <- is_running w ;;
       if negb r then ret (Break members) else
       let members := members ++ [user] in
       (if (len members mod 50 =? 0)%Z then
          emit (progress_signal
                  (u8 "📥 Получено участников: " ++ of_Z (len members))) ;;
          emit (progress_value (Z.min (len members) limit))
        else ret tt) ;;
       ret (Continue members))
    [].

(** Lines 218-243: the records of the buffered participants. *)
Definition transform_members (admin_ids : gset Z) (members : list User)
    : M (list Row) :=
  for_in (enumerate members)
    (fun '(idx, user) parsed_data =>
       r <- is_running w ;;
       if negb r then ret (Break parsed_data) else
       let parsed_data := parsed_data ++ [member_row admin_ids user] in
       (if ((Z.of_nat idx + 1) mod 50 =? 0)%Z then
          emit (progress_signal
                  (u8 "🔄 Обработано: " ++ of_Z (Z.of_nat idx + 1)
                   ++ u8 "/" ++ of_Z (len members))) ;;
          emit (progress_value (Z.of_nat idx + 1))
        else ret tt) ;;
       ret (Continue parsed_data))
    [].

(** The body of [MembersParserThread.parse] (lines 177-246). *)
Definition parse_body (link : str) (limit : Z) : M unit :=
  r <- is_running w ;;
  if negb r then ret tt else
  emit (progress_signal (u8 "🔄 Инициализация клиента…")) ;;
  ok <- ensure_auth w (flood_waits w) ;;
  if negb ok then ret tt else
  r <- is_running w ;;
  if negb r then ret tt else
  let chat_username := _clean_link link in
  emit (progress_signal (u8 "🔍 Поиск группы: @" ++ chat_username)) ;;
  found <- try_except
             (entity <- call (CallGetEntity chat_username)
                             (get_entity w chat_username) ;;
              ret (Some entity))
             (fun e =>
                emit (error_signal
                        (u8 "❌ Не удалось найти группу: " ++ exn_text e)) ;;
                ret None) ;;
  match found with
  | None => ret tt
  | Some entity =>
      members_count <-
        (if is_channel entity then
           count <- call (CallGetFullChannel entity)
                         (get_full_channel w entity) ;;
           ret (match count with
                | Some n => of_Z n
                | None => u8 "None"
                end)
         else ret (u8 "Неизвестно")) ;;
      emit (progress_signal (u8 "📊 Группа: " ++ getattr_title entity [])) ;;
      emit (progress_signal (u8 "👥 Участников: " ++ members_count)) ;;
      admin_ids <- fetch_admin_ids entity ;;
      members <- collect_members entity limit ;;
      parsed_data <- transform_members admin_ids members ;;
      r <- is_running w ;;
      if r then emit (finished_signal (getattr_title entity []) parsed_data)
      else ret tt
  end.

(** [MembersParserThread.parse] *)
Definition parse (link : str) (limit : Z) : M unit :=
  job w (parse_body link limit).

End Parse.

End MembersParserThread.
Import MembersParserThread(_clean_link, fetch_admin_ids, collect_members,
                           transform_members).

Section Buffer.

Variable w : World.

(** Lines 292-299 and 355-363: the messages, buffered.  [capped] tells
    whether the progress value is [min(len(...), self.limit)] (comments)
    or [len(...)] (messages). *)
Definition collect_messages (entity : Entity) (limit : Z)
    (reply_to : option Z) (caption : str) (capped : bool)
    : M (list Message) :=
  emit (Remote (CallIterMessages entity limit reply_to)) ;;
  async_for (iter_messages w entity limit reply_to)
    (fun msg messages =>
       r <- is_running w ;;
       if negb r then ret (Break messages) else
       let messages := messages ++ [msg] in
       (if (len messages mod 50 =? 0)%Z then
          emit (progress_signal (caption ++ of_Z (len messages))) ;;
          emit (progress_value
                  (if capped then Z.min (len messages) limit
                   else len messages))
        else ret tt) ;;
       ret (Continue messages))
    [].

(** Lines 301-313 and 365-376: one record for each buffered message,
    after its sender has been asked for. *)
Definition transform_messages
    (row : Message -> option Sender -> Res Row)
    (messages : list Message) : M (list Row) :=
  for_in messages
    (fun m parsed =>
       sender <- call (CallGetSender (msg_id m)) (msg_get_sender m) ;;
       record <- lift (row m sender) ;;
       ret (Continue (parsed ++ [record])))
    [].

End Buffer.

Module MessagesParserThread.

Section Parse.

Variable w : World.

(** The body of [MessagesParserThread.parse] (lines 282-315). *)
Definition parse_body (link : str) (limit : Z) : M unit :=
  r <- is_running w ;;
  if negb r then ret tt else
  emit (progress_signal (u8 "🔄 Инициализация клиента…")) ;;
  ok <- ensure_auth w (flood_waits w) ;;
  if negb ok then ret tt else
  let chat_username := _clean_link link in
  entity <- call (CallGetEntity chat_username) (get_entity w chat_username) ;;
  emit (progress_signal
          (u8 "💬 Чат: " ++ getattr_title entity chat_username)) ;;
  emit (progress_signal (u8 "📥 Получаю сообщения…")) ;;
  messages <- collect_messages w entity limit None
                (u8 "🔄 Получено сообщений: ") false ;;
  parsed <- transform_messages message_row messages ;;
  r <- is_running w ;;
  if r then
    emit (finished_signal
            (u8 "Сообщения чата " ++ getattr_title entity chat_username)
            parsed)
  else ret tt.

(** [MessagesParserThread.parse] *)
Definition parse (link : str) (limit : Z) : M unit :=
  job w (parse_body link limit).

End Parse.

End MessagesParserThread.

Module CommentsParserThread.

Section Parse.

Variable w : World.

(** The body of [CommentsParserThread.parse] (lines 339-378). *)
Definition parse_body (link : str) (limit : Z) : M unit :=
  r <- is_running w ;;
  if negb r then ret tt else
  emit (progress_signal (u8 "🔄 Инициализация клиента…")) ;;
  ok <- ensure_auth w (flood_waits w) ;;
  if negb ok then ret tt else
  target <- lift (parse_post_link (int_other w) link) ;;
  match target with
  | None => emit (error_signal (u8 "❌ Некорректная ссылка на пост"))
  | Some (channel_part, msg_id) =>
      entity <- call (CallGetEntity channel_part)
                     (get_entity w channel_part) ;;
      emit (progress_signal
              (u8 "📄 Канал: " ++ getattr_title entity channel_part
               ++ u8 " | Пост #" ++ of_Z msg_id)) ;;
      emit (progress_signal (u8 "💬 Получаю комментарии…")) ;;
      comments <- collect_messages w entity limit (Some msg_id)
                    (u8 "🔄 Получено комментариев: ") true ;;
      parsed <- transform_messages comment_row comments ;;
      r <- is_running w ;;
      if r then
        emit (finished_signal (u8 "Комментарии к посту #" ++ of_Z msg_id)
                parsed)
      else ret tt
  end.

(** [CommentsParserThread.parse] *)
Definition parse (link : str) (limit : Z) : M unit :=
  job w (parse_body link limit).

End Parse.

End CommentsParserThread.

Module ReactionsParserThread.

Section Parse.

Variable w : World.

(** Lines 430-441: the records of the users of the response. *)
Definition transform_reactions (response : ReactionsList) (limit : Z)
    : M (list Row) :=
  for_in (resp_users response)
    (fun user parsed =>
       emoji <- lift (find_emoticon (resp_reactions response)
                                    (user_id user)) ;;
       let parsed := parsed ++ [reaction_row emoji user] in
       if (len parsed >=? limit)%Z then ret (Break parsed)
       else ret (Continue parsed))
    [].

(** The body of [ReactionsParserThread.parse] (lines 402-443). *)
Definition parse_body (link : str) (limit : Z) : M unit :=
  r <- is_running w ;;
  if negb r then ret tt else
  ok <- ensure_auth w (flood_waits w) ;;
  if negb ok then ret tt else
  target <- lift (parse_post_link (int_other w) link) ;;
  match target with
  | None => emit (error_signal (u8 "❌ Неверная ссылка на пост"))
  | Some (channel_part, msg_id) =>
      entity <- call (CallGetEntity channel_part)
                     (get_entity w channel_part) ;;
      emit (progress_signal
              (u8 "📄 Канал/чат: " ++ getattr_title entity channel_part
               ++ u8 " | Пост #" ++ of_Z msg_id)) ;;
      (* fetch reactions list *)
      fetched <- try_except
                   (response <- call
                      (CallGetMessageReactionsList entity msg_id limit)
                      (get_message_reactions_list w entity msg_id limit) ;;
                    ret (Some response))
                   (fun e =>
                      emit (error_signal
                              (u8 "ℹ️ Ошибка получения реакций: "
                               ++ exn_text e)) ;;
                      ret None) ;;
      match fetched with
      | None => ret tt
      | Some response =>
          parsed <- transform_reactions response limit ;;
          r <- is_running w ;;
          if r then
            emit (finished_signal (u8 "Реакции поста #" ++ of_Z msg_id)
                    parsed)
          else ret tt
      end
  end.

(** [ReactionsParserThread.parse] *)
Definition parse (link : str) (limit : Z) : M unit :=
  job w (parse_body link limit).

End Parse.

End ReactionsParserThread.
Import ReactionsParserThread(transform_reactions).

(** The four collectors. *)
Inductive Collector := Members | Messages | Comments | Reactions.

(** [run]: [asyncio.run(self.parse())] on a freshly built thread; the
    result is the list of events of the job and the fields it ends
    with. *)
Definition parse_of (c : Collector) (w : World) (link : str) (limit : Z)
    : M unit :=
  match c with
  | Members => MembersParserThread.parse w link limit
  | Messages => MessagesParserThread.parse w link limit
  | Comments => CommentsParserThread.parse w link limit
  | Reactions => ReactionsParserThread.parse w link limit
  end.

Definition run (c : Collector) (w : World) (link : str) (limit : Z)
    : Res unit * St * list Event :=
  parse_of c w link limit init_st.

Definition events_of (c : Collector) (w : World) (link : str) (limit : Z)
    : list Event :=
  snd (run c w link limit).

(* ===================================================================== *)
(** ** Outcomes *)
(* ===================================================================== *)

(** The terminal outcome of a job, read off its events: the first
    [finished_signal] or [error_signal]; a job that emits neither has
    been cancelled (the window then only prints a status line). *)
Inductive JobOutcome :=
| Completed (title : str) (records : list Row)
| Failed (reason : str)
| Cancelled.

Fixpoint outcome (evs : list Event) : JobOutcome :=
  match evs with
  | [] => Cancelled
  | finished_signal title rows :: _ => Completed title rows
  | error_signal text :: _ => Failed text
  | _ :: evs' => outcome evs'
  end.

Definition is_finished (e : Event) : bool :=
  match e with finished_signal _ _ => true | _ => false end.

Definition is_error (e : Event) : bool :=
  match e with error_signal _ => true | _ => false end.

Definition is_prompt (e : Event) : bool :=
  match e with
  | auth_code_needed _ | auth_password_needed => true
  | _ => false
  end.

(** Calls that resolve the target or fetch data from it. *)
Definition is_fetch (e : Event) : bool :=
  match e with
  | Remote (CallGetEntity _) | Remote (CallGetFullChannel _)
  | Remote (CallIterParticipants _ _ _) | Remote (CallIterMessages _ _ _)
  | Remote (CallGetSender _) | Remote (CallGetMessageReactionsList _ _ _) =>
      true
  | _ => false
  end.

(* ===================================================================== *)
(** ** Sample worlds *)
(* ===================================================================== *)

Definition mk_user (id : Z) (name : string) : User :=
  {| user_id := id; username := Some (u8 name);
     first_name := Some (u8 name); last_name := None; phone := None;
     status := Some UserStatusRecently;
     bot := false; verified := false; scam := false; premium := false |}.

Definition mk_message (id : Z) (text : string) (sender : option Sender)
    : Message :=
  {| msg_id := id; msg_text := Some (u8 text); msg_message := Some (u8 text);
     msg_date := {| strftime_ymd_hms := u8 "2024-01-02 03:04:05" |};
     msg_media := None; msg_get_sender := Ok sender |}.

Definition no_items {A} : Iteration A :=
  {| it_items := []; it_ending := None |}.

(** A world whose stored session is authorized as Alice, and in which
    every name resolves to [entity]; the rest is given. *)
Definition authorized_world (stop : option nat) (entity : Res Entity)
    (admins members : Iteration User) (messages : Iteration Message)
    (reactions : Res ReactionsList) : World :=
  {| int_other := fun _ =>
       Raise (ValueError (u8 "invalid literal for int() with base 10"));
     stop_after := stop;
     dialog_reply := fun _ => Unanswered;
     connect := Ok tt;
     is_user_authorized := Ok true;
     get_me := Ok (Some (mk_user 1 "Alice"));
     flood_waits := [];
     send_code_request := fun _ => Ok tt;
     sign_in := fun _ _ => SignedIn;
     sign_in_password := fun _ => Ok tt;
     get_entity := fun _ => entity;
     get_full_channel := fun _ => Ok (Some 3%Z);
     iter_participants := fun _ admins_only _ =>
       if admins_only then admins else members;
     iter_messages := fun _ _ _ => messages;
     get_message_reactions_list := fun _ _ _ => reactions;
     disconnect := Ok tt |}.

(** A world with a fresh session: the phone number, the code and the
    password are typed in after a few rounds of waiting, the first
    code request meets a flood wait, and the account has a second
    factor. *)
Definition login_world : World :=
  {| int_other := fun _ =>
       Raise (ValueError (u8 "invalid literal for int() with base 10"));
     stop_after := None;
     dialog_reply := fun n =>
       match n with
       | 0 => Answer 2 (u8 " +100 ")
       | 1 => Answer 0 (u8 "+100")
       | 2 => Answer 1 (u8 "12345")
       | _ => Answer 0 (u8 "secret")
       end;
     connect := Ok tt;
     is_user_authorized := Ok false;
     get_me := Ok None;
     flood_waits := [7%Z];
     send_code_request := fun _ => Ok tt;
     sign_in := fun _ _ => SessionPasswordNeededError;
     sign_in_password := fun _ => Ok tt;
     get_entity := fun _ => Ok (EntChat 5 (u8 "Chat"));
     get_full_channel := fun _ => Ok None;
     iter_participants := fun _ _ _ => no_items;
     iter_messages := fun _ _ _ => no_items;
     get_message_reactions_list := fun _ _ _ =>
       Ok {| resp_reactions := []; resp_users := [] |};
     disconnect := Ok tt |}.


(* ===================================================================== *)
(** ** Properties of jobs, as definitions *)
(* ===================================================================== *)

Arguments u8 _ : simpl never.
Arguments of_Z _ : simpl never.
Arguments _clean_link _ : simpl never.
Arguments parse_post_link _ _ : simpl never.
Arguments member_row _ _ : simpl never.
Arguments message_row _ _ : simpl never.
Arguments comment_row _ _ : simpl never.
Arguments reaction_row _ _ : simpl never.
Arguments find_emoticon _ _ : simpl never.

(** [emits P m]: whatever the fields, every event of [m] satisfies [P]. *)
Definition emits {A} (P : Event -> Prop) (m : M A) : Prop :=
  forall st, Forall P (snd (m st)).

(** The events that [ensure_auth] can produce. *)
Inductive auth_event : Event -> Prop :=
| ae_progress text : auth_event (progress_signal text)
| ae_code text : auth_event (auth_code_needed text)
| ae_password : auth_event auth_password_needed
| ae_send_failed x :
    auth_event (error_signal (u8 "❌ Не удалось отправить код: " ++ x))
| ae_bad_password x :
    auth_event (error_signal (u8 "❌ Неверный пароль 2FA: " ++ x))
| ae_sign_in_failed x :
    auth_event (error_signal (u8 "❌ Ошибка авторизации: " ++ x))
| ae_connect : auth_event (Remote CallConnect)
| ae_is_authorized : auth_event (Remote CallIsUserAuthorized)
| ae_get_me : auth_event (Remote CallGetMe)
| ae_send_code phone_number :
    auth_event (Remote (CallSendCodeRequest phone_number))
| ae_sign_in phone_number code :
    auth_event (Remote (CallSignIn phone_number code))
| ae_sign_in_password password :
    auth_event (Remote (CallSignInPassword password))
| ae_sleep ms : auth_event (Sleep ms).

(** What [ensure_client] logs: the connection, unless the client is
    connected already. *)
Definition connect_events (st : St) : list Event :=
  match client st with
  | Some true => []
  | _ => [Remote CallConnect]
  end.

(** An event other than [finished_signal]. *)
Definition not_finished (e : Event) : Prop := is_finished e = false.

(** Every read of [is_running] made so far has seen [True]. *)
Definition all_reads_true (w : World) (st : St) : Prop :=
  forall k, k < flag_reads st -> flag_value w k = true.

(** Some read of [is_running] made so far has seen [False]: [stop()]
    was called before the last of them. *)
Definition stop_seen (w : World) (st : St) : Prop :=
  exists k, k < flag_reads st /\ flag_value w k = false.

(** [guarded w m]: [m] emits [finished_signal] only when it returns
    normally and every read of [is_running] has seen [True]. *)
Definition guarded (w : World) {A} (m : M A) : Prop :=
  forall st,
    Forall not_finished (snd (m st)) \/
    ((exists a, fst (fst (m st)) = Ok a) /\
     all_reads_true w (snd (fst (m st)))).

(** [ensure_auth], as every [parse] calls it (after one read of
    [is_running]), returns [True]. *)
Definition authenticates (w : World) : Prop :=
  fst (fst (ensure_auth w (flood_waits w) (count_read init_st))) = Ok true.

(** The client's iterators yield at most [limit] items. *)
Definition honours_limit (w : World) : Prop :=
  (forall entity admins_only limit,
     length (it_items (iter_participants w entity admins_only (Some limit)))
     <= Z.to_nat limit) /\
  (forall entity limit reply_to,
     length (it_items (iter_messages w entity limit reply_to))
     <= Z.to_nat limit).

(** The identifiers of the administrators that were yielded. *)
Definition admin_set (admins : list User) : gset Z :=
  fold_left (fun (s : gset Z) adm => {[ user_id adm ]} ∪ s) admins ∅.

(** Sample data. *)
Definition bob : User := mk_user 7 "Bob".
Definition eve : User := mk_user 8 "Eve".
Definition channel9 : Entity := EntChannel 9 (u8 "Ch").

(** An authorized world in which the administrators' iteration yields
    Bob and then fails, while the participants are Bob and Eve. *)
Definition admin_failure_world : World :=
  authorized_world None (Ok channel9)
    {| it_items := [bob]; it_ending := Some (RemoteError (u8 "boom")) |}
    {| it_items := [bob; eve]; it_ending := None |}
    no_items (Raise (RemoteError [])).

(** An authorized world whose reactions response names one user, Bob,
    whatever the limit asked for. *)
Definition one_reactor_world : World :=
  authorized_world None (Ok channel9) no_items no_items no_items
    (Ok {| resp_reactions :=
             [ {| peer_id := PeerUser 7; reaction := ReactionEmoji (u8 "👍") |} ];
           resp_users := [bob] |}).

(** An authorized world in which [stop()] is called after three reads
    of [is_running]: the first of the two participants is buffered,
    the second is not. *)
Definition stopping_world : World :=
  authorized_world (Some 3) (Ok channel9) no_items
    {| it_items := [bob; eve]; it_ending := None |}
    no_items (Raise (RemoteError [])).

(** The record of a message whose sender could not be resolved has
    empty author entries. *)
Definition blank_author (row : Row) : Prop :=
  row_get (u8 "Author ID") row = Some (VStr []) /\
  row_get (u8 "Username") row = Some (VStr []) /\
  row_get (u8 "First Name") row = Some (VStr []) /\
  row_get (u8 "Last Name") row = Some (VStr []).

(** [row] is the record made of [m] by [make]: its sender was asked for
    and the dictionary built without an exception. *)
Definition row_of (make : Message -> option Sender -> Res Row)
    (m : Message) (row : Row) : Prop :=
  exists sender, msg_get_sender m = Ok sender /\ make m sender = Ok row.

(** An event other than [e0]. *)
Definition other_than (e0 e : Event) : Prop := e <> e0.

(** The errors of the post-link check. *)
Definition bad_comment_link : Event :=
  error_signal (u8 "❌ Некорректная ссылка на пост").

Definition bad_reaction_link : Event :=
  error_signal (u8 "❌ Неверная ссылка на пост").

(** An authorized world with an empty chat. *)
Definition alice_world : World :=
  authorized_world None (Ok (EntChat 5 (u8 "Chat")))
    no_items no_items no_items
    (Ok {| resp_reactions := []; resp_users := [] |}).

(** An authorized world with an empty channel, whose
    [GetFullChannelRequest] succeeds. *)
Definition empty_channel_world : World :=
  authorized_world None (Ok channel9) no_items no_items no_items
    (Ok {| resp_reactions := []; resp_users := [] |}).

(** The same channel when [GetFullChannelRequest] fails. *)
Definition no_full_channel_world : World :=
  {| int_other := int_other empty_channel_world;
     stop_after := stop_after empty_channel_world;
     dialog_reply := dialog_reply empty_channel_world;
     connect := connect empty_channel_world;
     is_user_authorized := is_user_authorized empty_channel_world;
     get_me := get_me empty_channel_world;
     flood_waits := flood_waits empty_channel_world;
     send_code_request := send_code_request empty_channel_world;
     sign_in := sign_in empty_channel_world;
     sign_in_password := sign_in_password empty_channel_world;
     get_entity := get_entity empty_channel_world;
     get_full_channel := fun _ => Raise (RemoteError (u8 "CHANNEL_PRIVATE"));
     iter_participants := iter_participants empty_channel_world;
     iter_messages := iter_messages empty_channel_world;
     get_message_reactions_list :=
       get_message_reactions_list empty_channel_world;
     disconnect := disconnect empty_channel_world |}.

(** An authorized world whose chat holds a message of Bob and a message
    without a sender. *)
Definition messages_world : World :=
  authorized_world None (Ok (EntChat 5 (u8 "Chat"))) no_items no_items
    {| it_items := [ mk_message 1 "hi" (Some (SenderUser bob));
                     mk_message 2 "anon" None ];
       it_ending := None |}
    (Raise (RemoteError [])).

(** The title and the records that a run completes with (an empty title
    and no record when it does not complete). *)
Definition completed_title (evs : list Event) : str :=
  match outcome evs with
  | Completed title _ => title
  | _ => []
  end.

Definition completed_rows (evs : list Event) : list Row :=
  match outcome evs with
  | Completed _ rows => rows
  | _ => []
  end.

(** An event other than [error_signal]. *)
Definition no_error (e : Event) : Prop := is_error e = false.

(** An event that decides no outcome. *)
Definition quiet (e : Event) : Prop :=
  is_finished e = false /\ is_error e = false.

(** [clean m]: when [m] returns [True], it has emitted no error. *)
Definition clean (m : M bool) : Prop :=
  forall st, fst (fst (m st)) = Ok true -> Forall no_error (snd (m st)).

(** [runs m st a st' t]: from the fields [st], [m] returns [a] with the
    fields [st'] after the events [t]. *)
Definition runs {A} (m : M A) (st : St) (a : A) (st' : St)
    (t : list Event) : Prop :=
  m st = (Ok a, st', t).

(** The events [t] decide the outcome [Completed title rows] and hold
    no error. *)
Definition completes (t : list Event) (title : str) (rows : list Row)
    : Prop :=
  outcome t = Completed title rows /\ Forall no_error t.

(** An authorized world in which no name resolves. *)
Definition lost_world : World :=
  authorized_world None (Raise (RemoteError (u8 "Cannot find any entity")))
    no_items no_items no_items (Raise (RemoteError [])).

(* ===================================================================== *)
(** ** Further properties, as definitions *)
(* ===================================================================== *)

(** The keys of a record, in the order of the dictionary. *)
Definition keys (row : Row) : list str := List.map fst row.

(** The columns of the records of each collector. *)
Definition columns (c : Collector) : list str :=
  match c with
  | Members =>
      [ u8 "ID"; u8 "Username"; u8 "First Name"; u8 "Last Name";
        u8 "Phone"; u8 "Status"; u8 "Last Online"; u8 "Is Bot";
        u8 "Is Verified"; u8 "Is Scam"; u8 "Is Premium"; u8 "Is Admin" ]
  | Messages =>
      [ u8 "Message ID"; u8 "Author ID"; u8 "Username"; u8 "First Name";
        u8 "Last Name"; u8 "Date"; u8 "Text"; u8 "Media Type" ]
  | Comments =>
      [ u8 "Comment ID"; u8 "Author ID"; u8 "Username"; u8 "First Name";
        u8 "Last Name"; u8 "Text"; u8 "Date" ]
  | Reactions =>
      [ u8 "Emoji"; u8 "User ID"; u8 "Username"; u8 "First Name";
        u8 "Last Name" ]
  end.

(** [row] is the record made of [user] from the reactions [reactions]:
    the emoticon was found without an exception. *)
Definition reaction_row_of (reactions : list MessagePeerReaction)
    (user : User) (row : Row) : Prop :=
  exists emoji,
    find_emoticon reactions (user_id user) = Ok emoji /\
    row = reaction_row emoji user.

(** The number of rounds that the loop of lines 431-441 makes at most:
    the test of the limit comes after the record of a round has been
    appended, so that one round is always made. *)
Definition reaction_rounds (limit : Z) : nat := Z.to_nat (Z.max 1 limit).

(** A sender that the record builders accept: none, or a user. *)
Definition plain_sender (m : Message) : Prop :=
  msg_get_sender m = Ok None \/
  exists u, msg_get_sender m = Ok (Some (SenderUser u)).

(** An authorized world whose chat holds a message posted by a channel
    (an anonymous administrator) between two ordinary ones. *)
Definition channel_post_world : World :=
  authorized_world None (Ok (EntChat 5 (u8 "Chat"))) no_items no_items
    {| it_items := [ mk_message 1 "hi" (Some (SenderUser bob));
                     mk_message 2 "post" (Some (SenderChannel 9 None));
                     mk_message 3 "bye" (Some (SenderUser eve)) ];
       it_ending := None |}
    (Raise (RemoteError [])).

(** An authorized world whose reactions response names Bob, Eve and
    Alice, with a reaction of Bob only. *)
Definition three_reactors_world : World :=
  authorized_world None (Ok channel9) no_items no_items no_items
    (Ok {| resp_reactions :=
             [ {| peer_id := PeerUser 7; reaction := ReactionEmoji (u8 "👍") |} ];
           resp_users := [bob; eve; mk_user 1 "Alice"] |}).

(** The client has accepted a sign-in: the code at once, or the code
    with a request for the password and then the password. *)
Definition sign_in_accepted (w : World) : Prop :=
  exists phone_number code,
    sign_in w phone_number code = SignedIn \/
    (sign_in w phone_number code = SessionPasswordNeededError /\
     exists password, sign_in_password w password = Ok tt).

(** [sound w m]: [m] returns [True] only in a world whose client said
    that the session is authorized or accepted a sign-in. *)
Definition sound (w : World) (m : M bool) : Prop :=
  forall st,
    fst (fst (m st)) = Ok true ->
    is_user_authorized w = Ok true \/ sign_in_accepted w.
(* ===================================================================== *)
(** ** Checks of the string functions on samples *)
(* ===================================================================== *)

Example u8_ascii : u8 "t.me/" = [116; 46; 109; 101; 47]%N.
Proof. reflexivity. Qed.

Example u8_cyrillic : u8 "Да" = [1044; 1072]%N.
Proof. reflexivity. Qed.

Example u8_emoji : u8 "✅🧩" = [9989; 129513]%N.
Proof. reflexivity. Qed.

Example of_Z_samples :
  of_Z 0 = u8 "0" /\ of_Z 123 = u8 "123" /\ of_Z (-42) = u8 "-42".
Proof. repeat split; reflexivity. Qed.

Example replace_nonoverlapping :
  replace (u8 "aa") (u8 "b") (u8 "aaa") = u8 "ba".
Proof. reflexivity. Qed.

Example split_samples :
  split c_slash (u8 "a//b") = [u8 "a"; []; u8 "b"] /\
  split c_slash (u8 "abc") = [u8 "abc"] /\
  split c_slash [] = [[]].
Proof. repeat split; reflexivity. Qed.

Example strip_sample : strip (u8 "  foo bar	 ") = u8 "foo bar".
Proof. reflexivity. Qed.

Example clean_link_samples :
  _clean_link (u8 "https://t.me/foo/123?x=1") = u8 "foo" /\
  _clean_link (u8 "  @durov ") = u8 "durov" /\
  _clean_link (u8 "t.me/chat?start=1") = u8 "chat".
Proof. repeat split; reflexivity. Qed.

Example split_post_link_samples :
  split_post_link (u8 "mychannel") = None /\
  split_post_link (u8 "mychannel/42") = Some (u8 "mychannel", u8 "42") /\
  split_post_link (u8 "https://t.me/5") = None.
Proof. repeat split; reflexivity. Qed.

(* ===================================================================== *)
(** ** Facts about strings *)
(* ===================================================================== *)

Lemma contains_char_cons (c d : char) (s : str) :
  contains_char c (d :: s) = (c =? d)%N || contains_char c s.
Proof. reflexivity. Qed.

(** The first part of a split holds no separator. *)
Lemma split_hd_no_sep (c : char) (s : str) :
  contains_char c (hd [] (split c s)) = false.
Proof.
  induction s as [|d s IH]; simpl; [reflexivity|].
  destruct (N.eqb_spec d c) as [->|Hne]; simpl; [reflexivity|].
  destruct (split c s) as [|h t] eqn:E; simpl in *.
  - rewrite orb_false_r. apply N.eqb_neq. congruence.
  - rewrite IH, orb_false_r. apply N.eqb_neq. congruence.
Qed.

(** The first part of a split holds only characters of the string. *)
Lemma split_hd_keeps_absent (c d : char) (s : str) :
  contains_char d s = false ->
  contains_char d (hd [] (split c s)) = false.
Proof.
  induction s as [|x s IH]; simpl; [reflexivity|].
  intros H. apply orb_false_elim in H as [Hx Hs].
  destruct (x =? c)%N; simpl; [reflexivity|].
  destruct (split c s) as [|h t] eqn:E; simpl in *.
  - now rewrite Hx.
  - now rewrite Hx, (IH Hs).
Qed.

(** A pattern that has a character foreign to [s] does not start [s]. *)
Lemma startswith_foreign (c : char) (old s : str) :
  contains_char c old = true ->
  contains_char c s = false ->
  startswith old s = false.
Proof.
  revert s. induction old as [|a old IH]; simpl; [discriminate|].
  intros [|b s] Hold Hs; [reflexivity|].
  simpl in Hs. apply orb_false_elim in Hs as [Hb Hs].
  destruct (N.eqb_spec a b) as [->|Hne]; simpl; [|reflexivity].
  rewrite Hb in Hold. simpl in Hold. now apply IH.
Qed.

(** Replacing such a pattern changes nothing. *)
Lemma replace_foreign (c : char) (old new s : str) :
  contains_char c old = true ->
  contains_char c s = false ->
  replace old new s = s.
Proof.
  intros Hold. destruct old as [|a old]; [discriminate|].
  unfold replace. induction s as [|b s IH]; [reflexivity|].
  intros Hs.
  assert (Hst : startswith (a :: old) (b :: s) = false)
    by (eapply startswith_foreign; eassumption).
  simpl in Hs. apply orb_false_elim in Hs as [_ Hs].
  cbn [replace_from]. rewrite Hst. f_equal. now apply IH.
Qed.

Lemma clean_link_no_slash (link : str) :
  contains_char c_slash (_clean_link link) = false.
Proof.
  unfold _clean_link.
  match goal with
  | |- context [if contains_char c_slash ?l then _ else _] => set (l0 := l)
  end.
  assert (H : contains_char c_slash
                (if contains_char c_slash l0
                 then hd [] (split c_slash l0) else l0) = false).
  { destruct (contains_char c_slash l0) eqn:E;
      [apply split_hd_no_sep | exact E]. }
  destruct (contains_char c_question _);
    [now apply split_hd_keeps_absent | exact H].
Qed.

Lemma clean_link_no_question (link : str) :
  contains_char c_question (_clean_link link) = false.
Proof.
  unfold _clean_link.
  match goal with
  | |- context [if contains_char c_question ?l then _ else _] => set (l0 := l)
  end.
  destruct (contains_char c_question l0) eqn:E;
    [apply split_hd_no_sep | exact E].
Qed.

(** A handle without blanks around it, without [@] in front and
    without [/] or [?] is left as it is. *)
Lemma clean_link_fixed (h : str) :
  strip h = h ->
  startswith (u8 "@") h = false ->
  contains_char c_slash h = false ->
  contains_char c_question h = false ->
  _clean_link h = h.
Proof.
  intros Hstrip Hat Hslash Hq. unfold _clean_link, drop_url_prefixes.
  rewrite Hstrip.
  rewrite (replace_foreign c_slash (u8 "https://t.me/") [] h);
    [|reflexivity|assumption].
  rewrite (replace_foreign c_slash (u8 "t.me/") [] h);
    [|reflexivity|assumption].
  now rewrite Hat, Hslash, Hq.
Qed.

(* ===================================================================== *)
(** ** The status labels *)
(* ===================================================================== *)

(** C9. [get_user_status_text] is defined on every presence status: an
    absent status and the empty status give "Скрыто", online "Онлайн",
    offline "Оффлайн", recently "Недавно", last week
    "Был на этой неделе", last month "Был в этом месяце", any other
    class the fallback "Давно"; the label is never the empty string. *)
Theorem get_user_status_text_labels :
  get_user_status_text None = u8 "Скрыто" /\
  get_user_status_text (Some UserStatusOnline) = u8 "Онлайн" /\
  (forall was_online,
     get_user_status_text (Some (UserStatusOffline was_online))
     = u8 "Оффлайн") /\
  get_user_status_text (Some UserStatusRecently) = u8 "Недавно" /\
  get_user_status_text (Some UserStatusLastWeek) = u8 "Был на этой неделе" /\
  get_user_status_text (Some UserStatusLastMonth) = u8 "Был в этом месяце" /\
  get_user_status_text (Some UserStatusEmpty) = u8 "Скрыто" /\
  (forall class_name,
     get_user_status_text (Some (UserStatusOther class_name))
     = u8 "Давно") /\
  (forall status_obj, get_user_status_text status_obj <> []).
Proof.
  repeat split; try reflexivity.
  intros [[]|]; vm_compute; discriminate.
Qed.

(* ===================================================================== *)
(** ** Link normalisation *)
(* ===================================================================== *)

(** C4, as the spec states it, fails: a handle with two [@] in front
    loses one of them at each pass. *)
Lemma clean_link_not_idempotent :
  _clean_link (u8 "@@foo") = u8 "@foo" /\
  _clean_link (_clean_link (u8 "@@foo")) = u8 "foo" /\
  _clean_link (_clean_link (u8 "@@foo")) <> _clean_link (u8 "@@foo").
Proof. repeat split; vm_compute; discriminate. Qed.

(** [strip] removes a prefix and a suffix. *)
Lemma lstrip_split (s : str) : exists pre, s = pre ++ lstrip s.
Proof.
  induction s as [|c s [pre IH]]; [exists []; reflexivity|].
  cbn. destruct (is_space c).
  - exists (c :: pre). cbn. now rewrite <- IH.
  - exists []. reflexivity.
Qed.

Lemma strip_split (s : str) : exists pre suf, s = pre ++ strip s ++ suf.
Proof.
  unfold strip, rstrip.
  destruct (lstrip_split s) as [pre Hpre].
  destruct (lstrip_split (rev (lstrip s))) as [suf Hsuf].
  exists pre, (rev suf).
  rewrite <- rev_app_distr, <- Hsuf, rev_involutive. exact Hpre.
Qed.

Lemma strip_same_length (s : str) :
  length (strip s) = length s -> strip s = s.
Proof.
  destruct (strip_split s) as (pre & suf & Hs). intros Hlen.
  rewrite Hs in Hlen at 2. rewrite !length_app in Hlen.
  destruct pre; [|cbn in Hlen; lia].
  destruct suf; [|cbn in Hlen; lia].
  cbn in Hs. now rewrite app_nil_r in Hs.
Qed.

Lemma strip_length (s : str) : length (strip s) <= length s.
Proof.
  destruct (strip_split s) as (pre & suf & Hs).
  rewrite Hs at 2. rewrite !length_app. lia.
Qed.

Lemma strip_keeps_absent (c : char) (s : str) :
  contains_char c s = false -> contains_char c (strip s) = false.
Proof.
  destruct (strip_split s) as (pre & suf & Hs). intros H.
  rewrite Hs in H. unfold contains_char in *.
  rewrite !existsb_app in H.
  apply orb_false_elim in H as [_ H]. now apply orb_false_elim in H as [H _].
Qed.

(** On a handle without [/] and [?], [_clean_link] only strips the
    blanks and one leading [@]. *)
Lemma clean_link_of_handle (h : str) :
  contains_char c_slash h = false ->
  contains_char c_question h = false ->
  _clean_link h =
  if startswith (u8 "@") (strip h) then skipn 1 (strip h) else strip h.
Proof.
  intros Hslash Hq. unfold _clean_link, drop_url_prefixes.
  pose proof (strip_keeps_absent _ _ Hslash) as Hs.
  pose proof (strip_keeps_absent _ _ Hq) as Hqs.
  rewrite (replace_foreign c_slash (u8 "https://t.me/") [] (strip h));
    [|reflexivity|assumption].
  rewrite (replace_foreign c_slash (u8 "t.me/") [] (strip h));
    [|reflexivity|assumption].
  destruct (startswith (u8 "@") (strip h)).
  - destruct (strip h) as [|c z]; cbn [skipn] in *;
      [now rewrite Hs, Hqs|].
    rewrite contains_char_cons in Hs, Hqs.
    apply orb_false_elim in Hs as [_ Hs].
    apply orb_false_elim in Hqs as [_ Hqs].
    change (skipn 0 z) with z. now rewrite Hs, Hqs.
  - now rewrite Hs, Hqs.
Qed.

(** C4, amended. Normalising twice is normalising once exactly for the
    links whose normal form has no blank at either end and no [@] in
    front: such a normal form is returned unchanged, any other is
    changed again. *)
Theorem clean_link_idempotent (link : str) :
  _clean_link (_clean_link link) = _clean_link link <->
  strip (_clean_link link) = _clean_link link /\
  startswith (u8 "@") (_clean_link link) = false.
Proof.
  split.
  - rewrite (clean_link_of_handle (_clean_link link))
      by auto using clean_link_no_slash, clean_link_no_question.
    set (y := _clean_link link). intros Heq.
    pose proof (strip_length y) as Hle.
    assert (Hlen : length (strip y) = length y).
    { apply (f_equal (@length _)) in Heq.
      destruct (startswith (u8 "@") (strip y)); [|exact Heq].
      rewrite length_skipn in Heq. lia. }
    apply strip_same_length in Hlen. rewrite Hlen in Heq.
    split; [exact Hlen|].
    destruct (startswith (u8 "@") y) eqn:Hat; [|reflexivity].
    apply (f_equal (@length _)) in Heq. rewrite length_skipn in Heq.
    destruct y; [discriminate Hat | cbn in Heq; lia].
  - intros [Hstrip Hat].
    apply clean_link_fixed;
      auto using clean_link_no_slash, clean_link_no_question.
Qed.

Lemma clean_link_idempotent_witness :
  _clean_link (_clean_link (u8 " https://t.me/@foo/123?x=1 "))
    = _clean_link (u8 " https://t.me/@foo/123?x=1 ") /\
  strip (_clean_link (u8 " https://t.me/@foo/123?x=1 "))
    = _clean_link (u8 " https://t.me/@foo/123?x=1 ") /\
  startswith (u8 "@") (_clean_link (u8 " https://t.me/@foo/123?x=1 "))
    = false.
Proof.
  split; [reflexivity|].
  exact (proj1 (clean_link_idempotent (u8 " https://t.me/@foo/123?x=1 "))
               eq_refl).
Defined.

(* ===================================================================== *)
(** ** Post links *)
(* ===================================================================== *)

(** C5, as the spec states it, fails: the channel part keeps its [@]. *)
Lemma post_link_keeps_at_sign :
  parse_post_link (fun _ => Hang) (u8 "https://t.me/@foo/123?x=1")
  <> Ok (Some (u8 "foo", 123%Z)).
Proof. vm_compute. discriminate. Qed.

(** C5, amended. The post link [https://t.me/@foo/123?x=1] is parsed to
    the channel part [@foo] and the post id [123]: the URL prefix and
    the query string are removed, the [@] is kept. *)
Theorem post_link_example (int_other : str -> Res Z) :
  split_post_link (u8 "https://t.me/@foo/123?x=1")
    = Some (u8 "@foo", u8 "123") /\
  parse_post_link int_other (u8 "https://t.me/@foo/123?x=1")
    = Ok (Some (u8 "@foo", 123%Z)).
Proof. split; reflexivity. Qed.

(* ===================================================================== *)
(** ** The events of thread code, construct by construct *)
(* ===================================================================== *)

Section Emits.

Context (P : Event -> Prop).

Lemma emits_ret {A} (a : A) : emits P (ret a).
Proof. intros st. constructor. Qed.

Lemma emits_raise {A} (e : Exn) : emits P (@raise A e).
Proof. intros st. constructor. Qed.

Lemma emits_hang {A} : emits P (@hang A).
Proof. intros st. constructor. Qed.

Lemma emits_get : emits P get.
Proof. intros st. constructor. Qed.

Lemma emits_modify (f : St -> St) : emits P (modify f).
Proof. intros st. constructor. Qed.

Lemma emits_lift {A} (r : Res A) : emits P (lift r).
Proof. intros st. constructor. Qed.

Lemma emits_emit (e : Event) : P e -> emits P (emit e).
Proof. intros He st. repeat constructor. exact He. Qed.

Lemma emits_bind {A B} (m : M A) (f : A -> M B) :
  emits P m -> (forall a, emits P (f a)) -> emits P (bind m f).
Proof.
  intros Hm Hf st. unfold bind. specialize (Hm st).
  destruct (m st) as [[[a|e|] st1] t1]; simpl in *; try assumption.
  specialize (Hf a st1). destruct (f a st1) as [[r st2] t2]; simpl in *.
  apply Forall_app; split; assumption.
Qed.

(** The continuation of a pure step only runs on the value it gave. *)
Lemma emits_bind_lift {A B} (r : Res A) (f : A -> M B) :
  (forall a, r = Ok a -> emits P (f a)) -> emits P (bind (lift r) f).
Proof.
  intros Hf st. unfold bind, lift.
  destruct r as [a|e|]; simpl; try constructor.
  specialize (Hf a eq_refl st). destruct (f a st) as [[r st2] t2]; exact Hf.
Qed.

Lemma emits_call {A} (c : Call) (r : Res A) :
  P (Remote c) -> emits P (call c r).
Proof.
  intros Hc. apply emits_bind; [apply emits_emit, Hc|].
  intros _. apply emits_lift.
Qed.

Lemma emits_try_except {A} (m : M A) (h : Exn -> M A) :
  emits P m -> (forall e, emits P (h e)) -> emits P (try_except m h).
Proof.
  intros Hm Hh st. unfold try_except. specialize (Hm st).
  destruct (m st) as [[[a|e|] st1] t1]; simpl in *; try assumption.
  specialize (Hh e st1). destruct (h e st1) as [[r st2] t2]; simpl in *.
  apply Forall_app; split; assumption.
Qed.

Lemma emits_try_finally {A} (m : M A) (c : M unit) :
  emits P m -> emits P c -> emits P (try_finally m c).
Proof.
  intros Hm Hc st. unfold try_finally. specialize (Hm st).
  destruct (m st) as [[r st1] t1]; simpl in *.
  specialize (Hc st1).
  destruct r, (c st1) as [[[[]|e'|] st2] t2]; simpl in *;
    try assumption; apply Forall_app; split; assumption.
Qed.

Lemma emits_async_for_keep {A S} (items : list A) (ending : option Exn)
    (body : A -> S -> M (Flow S)) (s : S) :
  (forall x s, emits P (body x s)) ->
  emits P (async_for_keep items ending body s).
Proof.
  intros Hb. revert s. induction items as [|x rest IH]; intros s; simpl.
  - apply emits_ret.
  - apply emits_bind; [apply Hb|].
    intros [s'|s']; [apply IH | apply emits_ret].
Qed.

Lemma emits_async_for {A S} (it : Iteration A)
    (body : A -> S -> M (Flow S)) (s : S) :
  (forall x s, emits P (body x s)) -> emits P (async_for it body s).
Proof.
  intros Hb. apply emits_bind; [now apply emits_async_for_keep|].
  intros [s' [e|]]; simpl; [apply emits_raise | apply emits_ret].
Qed.

Lemma emits_for_in {A S} (items : list A)
    (body : A -> S -> M (Flow S)) (s : S) :
  (forall x s, emits P (body x s)) -> emits P (for_in items body s).
Proof. apply emits_async_for. Qed.

Lemma emits_is_running (w : World) : emits P (is_running w).
Proof. intros st. constructor. Qed.

End Emits.

Lemma emits_weaken {A} (P Q : Event -> Prop) (m : M A) :
  (forall e, P e -> Q e) -> emits P m -> emits Q m.
Proof. intros HPQ Hm st. eapply Forall_impl; [apply Hm | exact HPQ]. Qed.

(** One step of a proof of [emits P m], along the shape of [m];
    [tac] proves [P] of the events met. *)
Ltac emits_step tac :=
  lazymatch goal with
  | |- emits _ (bind (lift (Ok _)) _) =>
      apply emits_bind_lift; intros ? [= <-]
  | |- emits _ (bind (lift _) _) => apply emits_bind_lift; intros ? ?
  | |- emits _ (bind _ _) => apply emits_bind; [|intros ?]
  | |- emits _ (ret _) => apply emits_ret
  | |- emits _ (raise _) => apply emits_raise
  | |- emits _ hang => apply emits_hang
  | |- emits _ get => apply emits_get
  | |- emits _ (modify _) => apply emits_modify
  | |- emits _ (lift _) => apply emits_lift
  | |- emits _ (emit _) => apply emits_emit; tac
  | |- emits _ (call _ _) => apply emits_call; tac
  | |- emits _ (try_except _ _) => apply emits_try_except; [|intros ?]
  | |- emits _ (try_finally _ _) => apply emits_try_finally
  | |- emits _ (async_for_keep _ _ _ _) =>
      apply emits_async_for_keep; intros ? ?
  | |- emits _ (async_for _ _ _) => apply emits_async_for; intros ? ?
  | |- emits _ (for_in _ _ _) => apply emits_for_in; intros ? ?
  | |- emits _ (is_running _) => apply emits_is_running
  | |- emits _ (match ?x with _ => _ end) => destruct x
  | |- emits _ ((match ?x with _ => _ end) _) => destruct x
  | |- emits _ (let _ := _ in _) => cbv zeta
  end.

Ltac emits_auto tac := repeat emits_step tac.

Section ThreadEvents.

Variable w : World.

Lemma emits_poll (P : Event -> Prop) (arrive : St -> St) (d : nat) :
  (forall ms, P (Sleep ms)) -> emits P (poll w arrive d).
Proof.
  intros HP. induction d as [|d IH]; simpl; emits_auto ltac:(auto).
  exact IH.
Qed.

Lemma emits_poll_unanswered (P : Event -> Prop) (budget : nat) :
  (forall ms, P (Sleep ms)) -> emits P (poll_unanswered w budget).
Proof.
  intros HP. induction budget as [|b IH]; simpl; emits_auto ltac:(auto).
  exact IH.
Qed.

Lemma emits_wait_dialog (P : Event -> Prop) (store : str -> St -> St) :
  (forall ms, P (Sleep ms)) -> emits P (wait_dialog w store).
Proof.
  intros HP. unfold wait_dialog. emits_auto ltac:(auto).
  - now apply emits_poll.
  - now apply emits_poll_unanswered.
Qed.

(** [ensure_auth] emits nothing but its own events. *)
Lemma ensure_auth_events (floods : list Z) :
  emits auth_event (ensure_auth w floods).
Proof.
  induction floods as [|seconds floods IH]; simpl;
    unfold ensure_client, read_auth_code;
    emits_auto ltac:(try constructor);
    try (apply emits_wait_dialog; constructor).
  exact IH.
Qed.

Lemma emits_ensure_auth (P : Event -> Prop) (floods : list Z) :
  (forall e, auth_event e -> P e) -> emits P (ensure_auth w floods).
Proof. intros HP. eapply emits_weaken; [exact HP | apply ensure_auth_events]. Qed.

Lemma emits_cleanup (P : Event -> Prop) :
  P (Remote CallDisconnect) -> emits P (cleanup w).
Proof. intros HP. unfold cleanup. emits_auto ltac:(exact HP). Qed.

Lemma emits_critical (P : Event -> Prop) :
  (forall x, P (error_signal (u8 "❌ Критическая ошибка: " ++ x))) ->
  forall e, emits P (critical w e).
Proof. intros HP e. unfold critical. emits_auto ltac:(apply HP). Qed.

End ThreadEvents.

(** Proofs of [emits P m] for the code of the collectors: the named
    pieces are opened, [ensure_auth] is covered by its events. *)
Ltac emits_job_step tac :=
  lazymatch goal with
  | |- emits _ (ensure_auth _ _) =>
      apply emits_ensure_auth; intros ? []; tac
  | |- emits _ (ensure_client _) => unfold ensure_client
  | |- emits _ (read_auth_code) => unfold read_auth_code
  | |- emits _ (wait_dialog _ _) => apply emits_wait_dialog; intros ?; tac
  | |- emits _ (cleanup _) => unfold cleanup
  | |- emits _ (critical _ _) => unfold critical
  | |- emits _ (job _ _) => unfold job
  | |- emits _ (fetch_admin_ids _ _) => unfold fetch_admin_ids
  | |- emits _ (collect_members _ _ _) => unfold collect_members
  | |- emits _ (transform_members _ _ _) => unfold transform_members
  | |- emits _ (collect_messages _ _ _ _ _ _) => unfold collect_messages
  | |- emits _ (transform_messages _ _) => unfold transform_messages
  | |- emits _ (transform_reactions _ _) => unfold transform_reactions
  | |- _ => emits_step tac
  end.

Ltac emits_job tac := repeat emits_job_step tac.

(* ===================================================================== *)
(** ** Cancellation *)
(* ===================================================================== *)

Lemma flag_value_antitone (w : World) (j k : nat) :
  j <= k -> flag_value w k = true -> flag_value w j = true.
Proof.
  unfold flag_value. destruct (stop_after w) as [n|]; [|reflexivity].
  intros Hjk Hk. apply Nat.ltb_lt in Hk. apply Nat.ltb_lt. lia.
Qed.

Section Guarded.

Variable w : World.

Lemma guarded_silent {A} (m : M A) : emits not_finished m -> guarded w m.
Proof. intros Hm st. left. apply Hm. Qed.

Lemma guarded_bind {A B} (m : M A) (f : A -> M B) :
  emits not_finished m -> (forall a, guarded w (f a)) ->
  guarded w (bind m f).
Proof.
  intros Hm Hf st. unfold bind. specialize (Hm st).
  destruct (m st) as [[[a|e|] st1] t1]; cbn in *; try (left; assumption).
  specialize (Hf a st1). destruct (f a st1) as [[r st2] t2]; cbn in *.
  destruct Hf as [Hf|Hf]; [left | right; exact Hf].
  apply Forall_app; split; assumption.
Qed.

(** The end of every [parse]:
    [if self.is_running: self.finished_signal.emit(title, rows)]. *)
Lemma guarded_finish (title : str) (rows : list Row) :
  guarded w (bind (is_running w)
               (fun r => if r then emit (finished_signal title rows)
                         else ret tt)).
Proof.
  intros st. unfold bind, is_running, emit, ret. cbn.
  destruct (flag_value w (flag_reads st)) eqn:Hflag; cbn.
  - right. split; [eexists; reflexivity|].
    intros k Hk. cbn in Hk.
    apply (flag_value_antitone w k (flag_reads st)); [lia|].
    exact Hflag.
  - left. constructor.
Qed.

Lemma guarded_try_except {A} (m : M A) (h : Exn -> M A) :
  guarded w m -> (forall e, emits not_finished (h e)) ->
  guarded w (try_except m h).
Proof.
  intros Hm Hh st. unfold try_except. specialize (Hm st).
  destruct (m st) as [[[a|e|] st1] t1]; cbn in *; try exact Hm.
  destruct Hm as [Hm|[[a Ha] _]]; [|discriminate].
  specialize (Hh e st1). destruct (h e st1) as [[r st2] t2]; cbn in *.
  left. apply Forall_app; split; assumption.
Qed.

Lemma cleanup_keeps_reads (st : St) :
  flag_reads (snd (fst (cleanup w st))) = flag_reads st.
Proof.
  unfold cleanup, bind, get, call, emit, lift, modify, ret. cbn.
  destruct (client st) as [[]|]; cbn; try reflexivity.
  destruct (disconnect w) as [[]| |]; reflexivity.
Qed.

(** A job whose body is guarded emits no [finished_signal] once a read
    of [is_running] has seen [False]. *)
Lemma job_guarded (body : M unit) (st : St) :
  guarded w body ->
  stop_seen w (snd (fst (job w body st))) ->
  Forall not_finished (snd (job w body st)).
Proof.
  intros Hbody Hstop. unfold job in *.
  assert (Hg : guarded w (try_except body (critical w))).
  { apply guarded_try_except; [exact Hbody|].
    intros e. emits_job ltac:(reflexivity). }
  specialize (Hg st).
  assert (Hc : emits not_finished (cleanup w))
    by (emits_job ltac:(reflexivity)).
  pose proof (cleanup_keeps_reads (snd (fst (try_except body (critical w) st))))
    as Hreads.
  specialize (Hc (snd (fst (try_except body (critical w) st)))).
  unfold try_finally in *.
  destruct (try_except body (critical w) st) as [[r st1] t1];
    cbn [fst snd] in *.
  destruct Hg as [Ht1|[[a ->] Hall]].
  - destruct r, (cleanup w st1) as [[[[]|e'|] st2] t2]; cbn [fst snd] in *;
      try exact Ht1; apply Forall_app; split; assumption.
  - exfalso.
    destruct (cleanup w st1) as [[[[]|e'|] st2] t2]; cbn [fst snd] in *;
      destruct Hstop as [k [Hk Hfalse]]; rewrite Hreads in Hk;
      rewrite (Hall k Hk) in Hfalse; discriminate.
Qed.

End Guarded.

(** One step of a proof that a body is guarded. *)
Ltac guarded_step :=
  lazymatch goal with
  | |- guarded _ (bind (is_running _)
                    (fun r => if r then emit (finished_signal _ _)
                              else ret tt)) => apply guarded_finish
  | |- guarded _ (bind _ _) =>
      apply guarded_bind; [solve [emits_job ltac:(reflexivity)] | intros ?]
  | |- guarded _ (match ?x with _ => _ end) => destruct x
  | |- guarded _ (let _ := _ in _) => cbv zeta
  | |- guarded _ _ =>
      apply guarded_silent; solve [emits_job ltac:(reflexivity)]
  end.

Lemma members_body_guarded (w : World) (link : str) (limit : Z) :
  guarded w (MembersParserThread.parse_body w link limit).
Proof. unfold MembersParserThread.parse_body. repeat guarded_step. Qed.

Lemma messages_body_guarded (w : World) (link : str) (limit : Z) :
  guarded w (MessagesParserThread.parse_body w link limit).
Proof. unfold MessagesParserThread.parse_body. repeat guarded_step. Qed.

Lemma comments_body_guarded (w : World) (link : str) (limit : Z) :
  guarded w (CommentsParserThread.parse_body w link limit).
Proof. unfold CommentsParserThread.parse_body. repeat guarded_step. Qed.

Lemma reactions_body_guarded (w : World) (link : str) (limit : Z) :
  guarded w (ReactionsParserThread.parse_body w link limit).
Proof. unfold ReactionsParserThread.parse_body. repeat guarded_step. Qed.

Lemma outcome_completed_in (evs : list Event) (title : str)
    (rows : list Row) :
  outcome evs = Completed title rows -> In (finished_signal title rows) evs.
Proof.
  induction evs as [|e evs IH]; cbn; [discriminate|].
  destruct e; try (intros H; right; exact (IH H)); intros H.
  - injection H as -> ->. left. reflexivity.
  - discriminate.
Qed.

Lemma outcome_app_quiet (pre rest : list Event) :
  Forall quiet pre -> outcome (pre ++ rest) = outcome rest.
Proof.
  induction 1 as [|e pre [Hf He] _ IH]; [reflexivity|].
  destruct e; cbn in *; try discriminate; exact IH.
Qed.

(** C6. Whatever the collector, once a read of [is_running] has seen
    [False] (that is, [stop()] was called before the last check of the
    flag), the job emits no [finished_signal]: its outcome is not
    [Completed], neither with the records buffered so far nor with
    none, and it is [Cancelled] unless an error was reported on the
    way; and a job stopped before it starts emits nothing at all. *)
Theorem cancelled_never_completes (c : Collector) (w : World)
    (link : str) (limit : Z) :
  stop_seen w (snd (fst (run c w link limit))) ->
  Forall (fun e => is_finished e = false) (events_of c w link limit) /\
  (forall title rows,
     outcome (events_of c w link limit) <> Completed title rows) /\
  (Forall (fun e => is_error e = false) (events_of c w link limit) ->
   outcome (events_of c w link limit) = Cancelled) /\
  (stop_after w = Some 0 ->
     events_of c w link limit = [] /\
     outcome (events_of c w link limit) = Cancelled).
Proof.
  intros Hstop.
  assert (Hnone : Forall (fun e => is_finished e = false)
                    (events_of c w link limit)).
  { unfold events_of, run, parse_of in *.
    destruct c; apply job_guarded; try exact Hstop;
      auto using members_body_guarded, messages_body_guarded,
        comments_body_guarded, reactions_body_guarded. }
  split; [exact Hnone|]. split; [|split].
  - intros title rows Hout. apply outcome_completed_in in Hout.
    apply (proj1 (List.Forall_forall _ _) Hnone) in Hout. discriminate.
  - intros Herr.
    rewrite <- (app_nil_r (events_of c w link limit)).
    rewrite outcome_app_quiet; [reflexivity|].
    apply List.Forall_forall. intros e He. split.
    + exact (proj1 (List.Forall_forall _ _) Hnone e He).
    + exact (proj1 (List.Forall_forall _ _) Herr e He).
  - intros H0.
    assert (Hev : events_of c w link limit = []).
    { unfold events_of, run, parse_of, MembersParserThread.parse, MessagesParserThread.parse,
        CommentsParserThread.parse, ReactionsParserThread.parse, job, try_finally, try_except,
        MembersParserThread.parse_body, MessagesParserThread.parse_body, CommentsParserThread.parse_body, ReactionsParserThread.parse_body,
        bind, is_running, flag_value.
      destruct c; rewrite H0; reflexivity. }
    split; [exact Hev | rewrite Hev; reflexivity].
Qed.

(* ===================================================================== *)
(** ** The authenticator *)
(* ===================================================================== *)

(** C8. When [is_user_authorized] reports [True], [ensure_auth] asks for
    nothing: none of its events is a phone, code or password prompt;
    and when the connection and [get_me] succeed, it returns [True]
    after a status message that carries the user's first name. *)
Theorem ensure_auth_short_circuit (w : World) (floods : list Z) (st : St) :
  is_user_authorized w = Ok true ->
  Forall (fun e => is_prompt e = false) (snd (ensure_auth w floods st)) /\
  (forall me, connect w = Ok tt -> get_me w = Ok (Some me) ->
     ensure_auth w floods st =
     (Ok true, set_client (Some true) st,
      connect_events st ++
      [Remote CallIsUserAuthorized; Remote CallGetMe;
       progress_signal
         (u8 "✅ Авторизован как: " ++ fmt_opt (first_name me))])).
Proof.
  intros Hauth. split.
  - destruct floods; destruct st as [[[]|] ac ap fr pr];
      unfold ensure_auth, ensure_client, bind, call, get, modify, emit,
        lift, ret, raise; cbn;
      destruct (connect w) as [[]| |]; cbn; rewrite ?Hauth; cbn;
      destruct (get_me w) as [[me|]| |]; cbn;
      repeat constructor.
  - intros me Hc Hm. destruct floods; destruct st as [[[]|] ac ap fr pr];
      unfold ensure_auth, ensure_client, bind, call, get, modify, emit,
        lift, ret, raise, connect_events; cbn;
      rewrite ?Hc; cbn; rewrite ?Hauth; cbn; rewrite ?Hm; cbn; reflexivity.
Qed.

Lemma ensure_auth_short_circuit_witness :
  is_user_authorized alice_world = Ok true /\
  Forall (fun e => is_prompt e = false)
    (snd (ensure_auth alice_world [] init_st)) /\
  ensure_auth alice_world [] init_st =
    (Ok true, set_client (Some true) init_st,
     [Remote CallConnect; Remote CallIsUserAuthorized; Remote CallGetMe;
      progress_signal (u8 "✅ Авторизован как: Alice")]).
Proof.
  split; [reflexivity|].
  destruct (ensure_auth_short_circuit alice_world [] init_st eq_refl)
    as [Hno Hok].
  split; [exact Hno|].
  exact (Hok (mk_user 1 "Alice") eq_refl eq_refl).
Defined.

(** A fresh session, by contrast, is asked for the phone number (twice
    here, the first code request meeting a flood wait), the code and
    the password. *)
Example ensure_auth_prompts_fresh_session :
  filter is_prompt (snd (ensure_auth login_world [7%Z] init_st)) =
  [ auth_code_needed (u8 "Введите номер телефона (например: +1234567890)");
    auth_code_needed (u8 "Введите номер телефона (например: +1234567890)");
    auth_code_needed (u8 "Введите код из SMS/Telegram для +100");
    auth_password_needed ] /\
  fst (fst (ensure_auth login_world [7%Z] init_st)) = Ok true.
Proof. split; reflexivity. Qed.

(* ===================================================================== *)
(** ** The reactions collector and its limit *)
(* ===================================================================== *)

Lemma len_snoc {A} (l : list A) (x : A) : len (l ++ [x]) = (len l + 1)%Z.
Proof. unfold len. rewrite length_app. cbn [length]. lia. Qed.

(** With a limit of at least one, the loop of lines 430-441 stops at
    [limit] records. *)
Lemma transform_reactions_loop_bound (response : ReactionsList) (limit : Z)
    (users : list User) (parsed : list Row) (st : St) :
  (len parsed < limit)%Z ->
  forall rows e st' t,
    async_for_keep users None
      (fun user parsed =>
         emoji <- lift (find_emoticon (resp_reactions response)
                                      (user_id user)) ;;
         let parsed := parsed ++ [reaction_row emoji user] in
         if (len parsed >=? limit)%Z then ret (Break parsed)
         else ret (Continue parsed))%thread
      parsed st = (Ok (rows, e), st', t) ->
    (len rows <= limit)%Z.
Proof.
  revert parsed st. induction users as [|user users IH];
    intros parsed st Hlt rows e st' t Hrun.
  - cbn in Hrun. injection Hrun as <- _ _ _. lia.
  - cbn in Hrun. unfold bind, lift, ret in Hrun. cbn in Hrun.
    destruct (find_emoticon _ _) as [emoji| |]; try discriminate.
    cbn in Hrun.
    destruct (len (parsed ++ [reaction_row emoji user]) >=? limit)%Z eqn:Hge.
    + cbn in Hrun. injection Hrun as <- _ _ _.
      rewrite len_snoc. lia.
    + cbn in Hrun.
      match type of Hrun with
      | context [async_for_keep ?us ?en ?b ?p ?s] =>
          destruct (async_for_keep us en b p s) as [[[[rows' e']| |] st1] t1]
            eqn:Hrest
      end; cbn in Hrun; try discriminate.
      injection Hrun as <- <- _ _.
      eapply IH; [|exact Hrest].
      rewrite Z.geb_leb in Hge. apply Z.leb_gt in Hge. exact Hge.
Qed.

Lemma transform_reactions_bound (response : ReactionsList)
    (limit : Z) (st : St) (rows : list Row) (st' : St) (t : list Event) :
  (1 <= limit)%Z ->
  transform_reactions response limit st = (Ok rows, st', t) ->
  (len rows <= limit)%Z.
Proof.
  intros Hlimit Hrun. unfold transform_reactions, for_in, async_for in Hrun.
  unfold bind at 1 in Hrun. cbn [it_items it_ending] in Hrun.
  match type of Hrun with
  | context [async_for_keep ?us ?en ?b ?p ?s] =>
      destruct (async_for_keep us en b p s) as [[[[rows' e']| |] st1] t1]
        eqn:Hloop
  end; try discriminate.
  apply transform_reactions_loop_bound in Hloop;
    [|unfold len; cbn [length]; lia].
  cbn in Hrun. destruct e'; cbn in Hrun; try discriminate.
  injection Hrun as <- _ _. exact Hloop.
Qed.

(** C3, on the code. With [limit = 0] and a response that names one
    user, the job completes with one record, more than the limit: the
    test [len(parsed) >= self.limit] comes after the record has been
    appended. *)
Theorem reactions_limit_zero_emits_one :
  outcome (events_of Reactions one_reactor_world (u8 "mychannel/42") 0)
  = Completed (u8 "Реакции поста #42") [reaction_row (u8 "👍") bob] /\
  (len [reaction_row (u8 "👍") bob] > 0)%Z.
Proof. split; reflexivity. Qed.

(* ===================================================================== *)
(** ** The administrators of the members collector *)
(* ===================================================================== *)

Lemma admin_loop (admins : list User) (ending : option Exn)
    (s : gset Z) (st : St) :
  async_for_keep admins ending
    (fun adm (admin_ids : gset Z) =>
       ret (Continue ({[ user_id adm ]} ∪ admin_ids))) s st
  = (Ok (fold_left (fun (s : gset Z) adm => {[ user_id adm ]} ∪ s) admins s,
         ending), st, []).
Proof.
  revert s. induction admins as [|adm admins IH]; intros s; cbn.
  - reflexivity.
  - unfold bind, ret. cbn. rewrite IH. reflexivity.
Qed.

(** The administrators' fetch never fails, whatever its iterator does,
    and keeps the identifiers yielded before a failure. *)
Lemma fetch_admin_ids_result (w : World) (entity : Entity) (st : St) :
  fetch_admin_ids w entity st =
  (Ok (admin_set (it_items (iter_participants w entity true None))), st,
   [Remote (CallIterParticipants entity true None)]).
Proof.
  unfold fetch_admin_ids, bind, emit, ret. cbn. rewrite admin_loop.
  reflexivity.
Qed.

Lemma admin_set_elem (admins : list User) (id : Z) :
  id ∈ admin_set admins <-> In id (List.map user_id admins).
Proof.
  unfold admin_set.
  assert (H : forall s : gset Z,
    id ∈ fold_left (fun (s : gset Z) adm => {[ user_id adm ]} ∪ s) admins s
    <-> id ∈ s \/ In id (List.map user_id admins)).
  { induction admins as [|adm admins IH]; intros s; cbn.
    - tauto.
    - rewrite IH. rewrite elem_of_union, elem_of_singleton.
      intuition congruence. }
  rewrite H. rewrite elem_of_empty. tauto.
Qed.

(** The admin flag of a record is membership in the set handed to
    [member_row]. *)
Lemma member_row_is_admin (admin_ids : gset Z) (user : User) :
  row_get (u8 "Is Admin") (member_row admin_ids user)
  = Some (yes_no (bool_decide (user_id user ∈ admin_ids))).
Proof. reflexivity. Qed.

(** C7, on the code. When the administrators' iteration yields Bob and
    then fails, the job goes on, but with Bob in its admin set and not
    with an empty one: Bob's record says "Да", where an empty set
    gives "Нет". *)
Theorem partial_admin_fetch_keeps_ids :
  exists title row_bob row_eve,
    outcome (events_of Members admin_failure_world (u8 "t.me/chat") 10)
    = Completed title [row_bob; row_eve] /\
    row_get (u8 "Is Admin") row_bob = Some (VStr (u8 "Да")) /\
    row_get (u8 "Is Admin") row_eve = Some (VStr (u8 "Нет")) /\
    row_get (u8 "Is Admin") (member_row ∅ bob) = Some (VStr (u8 "Нет")).
Proof.
  eexists _, _, _. split; [vm_compute; reflexivity|].
  repeat split; vm_compute; reflexivity.
Qed.

Lemma cancelled_never_completes_witness :
  stop_seen stopping_world
    (snd (fst (run Members stopping_world (u8 "t.me/chat") 10))) /\
  Forall (fun e => is_finished e = false)
    (events_of Members stopping_world (u8 "t.me/chat") 10).
Proof.
  assert (H : stop_seen stopping_world
                (snd (fst (run Members stopping_world (u8 "t.me/chat") 10)))).
  { exists 3. split; [vm_compute; lia | reflexivity]. }
  split; [exact H|].
  exact (proj1 (cancelled_never_completes Members stopping_world
                  (u8 "t.me/chat") 10 H)).
Defined.

(** In that run Bob had been buffered when [stop()] came; nothing of
    the buffer is emitted. *)
Example stopped_job_discards_buffer :
  outcome (events_of Members stopping_world (u8 "t.me/chat") 10)
  = Cancelled /\
  filter is_finished (events_of Members stopping_world (u8 "t.me/chat") 10)
  = [] /\
  flag_reads (snd (fst (run Members stopping_world (u8 "t.me/chat") 10)))
  = 6.
Proof. repeat split; reflexivity. Qed.

(* ===================================================================== *)
(** ** Running a job backwards from one of its events *)
(* ===================================================================== *)

Lemma bind_events {A B} (m : M A) (f : A -> M B) (st st1 : St) (a : A)
    (t1 : list Event) :
  m st = (Ok a, st1, t1) ->
  snd (bind m f st) = t1 ++ snd (f a st1).
Proof.
  intros Hm. unfold bind. rewrite Hm.
  destruct (f a st1) as [[r st2] t2]. reflexivity.
Qed.

(** An event that [m] cannot emit comes from the continuation, which
    has therefore run. *)
Lemma in_bind_inv {A B} (P : Event -> Prop) (e : Event) (m : M A)
    (f : A -> M B) (st : St) :
  emits P m -> ~ P e ->
  In e (snd (bind m f st)) ->
  exists a st1 t1, m st = (Ok a, st1, t1) /\ In e (snd (f a st1)).
Proof.
  intros Hm HPe Hin. specialize (Hm st). unfold bind in Hin.
  destruct (m st) as [[[a|x|] st1] t1]; cbn in *.
  - exists a, st1, t1. split; [reflexivity|].
    destruct (f a st1) as [[r st2] t2]; cbn in *.
    apply in_app_or in Hin as [Hin|Hin]; [|exact Hin].
    exfalso. apply HPe. exact (proj1 (List.Forall_forall _ _) Hm e Hin).
  - exfalso. apply HPe. exact (proj1 (List.Forall_forall _ _) Hm e Hin).
  - exfalso. apply HPe. exact (proj1 (List.Forall_forall _ _) Hm e Hin).
Qed.

(** The events of a job: those of its body, then those of the handler
    and of [cleanup]. *)
Lemma job_events (w : World) (P : Event -> Prop) (body : M unit) (st : St) :
  (forall x, P (error_signal (u8 "❌ Критическая ошибка: " ++ x))) ->
  P (Remote CallDisconnect) ->
  exists extra,
    snd (job w body st) = snd (body st) ++ extra /\ Forall P extra.
Proof.
  intros Hcrit Hdisc. unfold job, try_finally, try_except.
  pose proof (emits_critical w P Hcrit) as Hh.
  pose proof (emits_cleanup w P Hdisc) as Hc.
  destruct (body st) as [[[[]|e|] st1] t1]; cbn [snd].
  - specialize (Hc st1).
    destruct (cleanup w st1) as [[[[]|e'|] st2] t2]; cbn [snd] in *;
      exists t2; split; auto.
  - specialize (Hh e st1).
    destruct (critical w e st1) as [[r st2] t2]; cbn [snd] in *.
    specialize (Hc st2).
    destruct r, (cleanup w st2) as [[[[]|e'|] st3] t3]; cbn [snd] in *;
      first [ exists (t2 ++ t3); split;
                [now rewrite app_assoc | apply Forall_app; split; assumption]
            | exists t2; split; [reflexivity | assumption] ].
  - exists []. split; [now rewrite app_nil_r | constructor].
Qed.

Lemma call_ok_inv {A} (c : Call) (r : Res A) (st st1 : St) (a : A)
    (t1 : list Event) :
  call c r st = (Ok a, st1, t1) ->
  r = Ok a /\ st1 = st /\ t1 = [Remote c].
Proof.
  unfold call, bind, emit, lift. cbn.
  destruct r; intros H; inversion H; auto.
Qed.

Lemma lift_ok_inv {A} (r : Res A) (st st1 : St) (a : A) (t1 : list Event) :
  lift r st = (Ok a, st1, t1) -> r = Ok a /\ st1 = st /\ t1 = [].
Proof. unfold lift. intros H; inversion H; auto. Qed.

Lemma is_running_inv (w : World) (st st1 : St) (a : bool)
    (t1 : list Event) :
  is_running w st = (Ok a, st1, t1) ->
  a = flag_value w (flag_reads st) /\ st1 = count_read st /\ t1 = [].
Proof. unfold is_running. intros H; inversion H; auto. Qed.

(** One step backwards from [H : In e (snd (bind m f st))], when [m]
    cannot emit the [finished_signal] looked for. *)
Ltac finished_back H a st t Heq :=
  apply (in_bind_inv not_finished) in H;
  [ destruct H as (a & st & t & Heq & H); cbv beta zeta in H
  | solve [emits_job ltac:(reflexivity)]
  | intros Hnf; discriminate Hnf ].

(* ===================================================================== *)
(** ** Buffering and transforming messages *)
(* ===================================================================== *)

Section Buffering.

Variable w : World.

(** The buffering loop of lines 293-299 and 357-363: when no read of
    [is_running] has seen [False], no round was left by [break] and
    every item is buffered. *)
Lemma collect_messages_loop (limit : Z) (caption : str) (capped : bool)
    (items : list Message) (ending : option Exn) :
  forall (acc : list Message) (st : St) res e st' t,
    async_for_keep items ending
      (fun msg messages =>
         r <- is_running w ;;
         if negb r then ret (Break messages) else
         let messages := messages ++ [msg] in
         (if (len messages mod 50 =? 0)%Z then
            emit (progress_signal (caption ++ of_Z (len messages))) ;;
            emit (progress_value
                    (if capped then Z.min (len messages) limit
                     else len messages))
          else ret tt) ;;
         ret (Continue messages))%thread
      acc st = (Ok (res, e), st', t) ->
    all_reads_true w st' ->
    res = acc ++ items /\ e = ending /\ flag_reads st <= flag_reads st'.
Proof.
  induction items as [|msg items IH]; intros acc st res e st' t Hrun Hall.
  - cbn in Hrun. inversion Hrun; subst. rewrite app_nil_r. auto.
  - cbn [async_for_keep] in Hrun. unfold bind at 1 in Hrun.
    unfold bind at 1 in Hrun. unfold is_running at 1 in Hrun.
    destruct (flag_value w (flag_reads st)) eqn:Hflag; cbn [negb] in Hrun.
    + cbv zeta in Hrun. unfold bind at 1 in Hrun.
      match type of Hrun with
      | context [(if ?b then _ else _) (count_read st)] =>
          assert (Hrep : exists t0,
                    (if b then
                       emit (progress_signal
                               (caption ++ of_Z (len (acc ++ [msg])))) ;;
                       emit (progress_value
                               (if capped
                                then Z.min (len (acc ++ [msg])) limit
                                else len (acc ++ [msg])))
                     else ret tt)%thread (count_read st)
                    = (Ok tt, count_read st, t0))
            by (destruct b; eexists; reflexivity)
      end.
      destruct Hrep as [t0 Hrep]. rewrite Hrep in Hrun.
      unfold ret at 1 in Hrun. cbn [app] in Hrun.
      match type of Hrun with
      | context [async_for_keep ?i ?en ?b ?a ?s] =>
          destruct (async_for_keep i en b a s) as [[[[res1 e1]| |] st1] t1]
            eqn:Hrest
      end; try discriminate.
      inversion Hrun; subst.
      destruct (IH _ _ _ _ _ _ Hrest Hall) as (-> & -> & Hle).
      rewrite <- app_assoc. cbn in Hle. cbn. repeat split; auto. lia.
    + exfalso. unfold ret in Hrun. inversion Hrun; subst.
      specialize (Hall (flag_reads st)). cbn in Hall.
      rewrite Hall in Hflag by lia. discriminate.
Qed.

Lemma collect_messages_all (entity : Entity) (limit : Z)
    (reply_to : option Z) (caption : str) (capped : bool)
    (st st' : St) (messages : list Message) (t : list Event) :
  collect_messages w entity limit reply_to caption capped st
  = (Ok messages, st', t) ->
  all_reads_true w st' ->
  messages = it_items (iter_messages w entity limit reply_to).
Proof.
  intros Hrun Hall. unfold collect_messages, async_for in Hrun.
  unfold bind at 1 in Hrun. unfold emit at 1 in Hrun.
  unfold bind at 1 in Hrun.
  match type of Hrun with
  | context [async_for_keep ?i ?en ?b ?a ?s] =>
      destruct (async_for_keep i en b a s) as [[[[res1 e1]| |] st1] t1]
        eqn:Hloop
  end; try discriminate.
  cbn [fst snd] in Hrun.
  destruct e1 as [x|]; unfold raise, ret in Hrun; inversion Hrun; subst.
  apply collect_messages_loop in Hloop; [|exact Hall].
  destruct Hloop as (-> & _ & _). reflexivity.
Qed.

(** The transforming loop of lines 301-313 and 365-376 appends one
    record for each message and reads no flag. *)
Lemma transform_messages_loop
    (make : Message -> option Sender -> Res Row) (messages : list Message) :
  forall (acc : list Row) (st : St) res e st' t,
    async_for_keep messages None
      (fun m parsed =>
         sender <- call (CallGetSender (msg_id m)) (msg_get_sender m) ;;
         record <- lift (make m sender) ;;
         ret (Continue (parsed ++ [record])))%thread
      acc st = (Ok (res, e), st', t) ->
    st' = st /\
    exists rows, res = acc ++ rows /\ Forall2 (row_of make) messages rows.
Proof.
  induction messages as [|m messages IH]; intros acc st res e st' t Hrun.
  - cbn in Hrun. inversion Hrun; subst. split; [reflexivity|].
    exists []. rewrite app_nil_r. split; [reflexivity | constructor].
  - cbn [async_for_keep] in Hrun.
    unfold bind at 1 in Hrun. unfold bind at 1 in Hrun.
    unfold call at 1 in Hrun. unfold bind at 1 in Hrun.
    unfold emit at 1, lift at 1 in Hrun.
    destruct (msg_get_sender m) as [sender| |] eqn:Hsender;
      try discriminate.
    unfold bind at 1 in Hrun. unfold lift at 1 in Hrun.
    destruct (make m sender) as [record| |] eqn:Hmake; try discriminate.
    unfold ret at 1 in Hrun.
    match type of Hrun with
    | context [async_for_keep ?i ?en ?b ?a ?s] =>
        destruct (async_for_keep i en b a s) as [[[[res1 e1]| |] st1] t1]
          eqn:Hrest
    end; try discriminate.
    inversion Hrun; subst.
    destruct (IH _ _ _ _ _ _ Hrest) as (-> & rows & -> & Hrows).
    split; [reflexivity|]. exists (record :: rows).
    rewrite <- app_assoc. split; [reflexivity|].
    constructor; [|exact Hrows]. exists sender. auto.
Qed.

Lemma transform_messages_rows
    (make : Message -> option Sender -> Res Row) (messages : list Message)
    (st st' : St) (rows : list Row) (t : list Event) :
  transform_messages make messages st = (Ok rows, st', t) ->
  st' = st /\ Forall2 (row_of make) messages rows.
Proof.
  intros Hrun. unfold transform_messages, for_in, async_for in Hrun.
  unfold bind at 1 in Hrun. cbn [it_items it_ending] in Hrun.
  match type of Hrun with
  | context [async_for_keep ?i ?en ?b ?a ?s] =>
      destruct (async_for_keep i en b a s) as [[[[res1 e1]| |] st1] t1]
        eqn:Hloop
  end; try discriminate.
  cbn [fst snd] in Hrun.
  destruct e1 as [x|]; unfold raise, ret in Hrun; inversion Hrun; subst.
  apply transform_messages_loop in Hloop.
  destruct Hloop as (-> & rows' & -> & Hrows). auto.
Qed.

(** The last statement of a [parse]: the signal it emits is the one
    looked for, and the flag was still [True]. *)
Lemma finish_inv (title title' : str) (rows rows' : list Row) (st : St) :
  In (finished_signal title rows)
     (snd (bind (is_running w)
             (fun r => if r then emit (finished_signal title' rows')
                       else ret tt) st)) ->
  title = title' /\ rows = rows' /\ all_reads_true w (count_read st).
Proof.
  unfold bind, is_running, emit, ret.
  destruct (flag_value w (flag_reads st)) eqn:Hflag; cbn.
  - intros [H|[]]. inversion H; subst. repeat split.
    intros k Hk. cbn in Hk.
    apply (flag_value_antitone w k (flag_reads st)); [lia | exact Hflag].
  - intros [].
Qed.

End Buffering.

(** A [finished_signal] of a job comes from its body. *)
Lemma finished_in_body (w : World) (body : M unit) (st : St)
    (title : str) (rows : list Row) :
  In (finished_signal title rows) (snd (job w body st)) ->
  In (finished_signal title rows) (snd (body st)).
Proof.
  intros Hin.
  destruct (job_events w not_finished body st) as (extra & Heq & Hextra);
    [reflexivity | reflexivity |].
  rewrite Heq in Hin. apply in_app_or in Hin as [Hin|Hin]; [exact Hin|].
  apply (proj1 (List.Forall_forall _ _) Hextra) in Hin. discriminate.
Qed.

Lemma blank_author_message_row (m : Message) (row : Row) :
  message_row m None = Ok row -> blank_author row.
Proof.
  unfold message_row, author_fields, and_then. intros H.
  inversion H; subst. repeat split; reflexivity.
Qed.

Lemma blank_author_comment_row (m : Message) (row : Row) :
  comment_row m None = Ok row -> blank_author row.
Proof.
  unfold comment_row, author_fields, and_then. intros H.
  inversion H; subst. repeat split; reflexivity.
Qed.

(** The records of a run over a chat with a message of Bob and one
    without a sender. *)
Example messages_world_rows :
  List.map (row_get (u8 "Author ID"))
    (completed_rows (events_of Messages messages_world (u8 "t.me/chat") 10))
  = [Some (VInt 7); Some (VStr [])] /\
  List.map (row_get (u8 "First Name"))
    (completed_rows (events_of Comments messages_world (u8 "chat/42") 10))
  = [Some (VStr (u8 "Bob")); Some (VStr [])].
Proof. split; reflexivity. Qed.

(* ===================================================================== *)
(** ** The post-link check *)
(* ===================================================================== *)

Lemma parse_post_link_invalid (int_other : str -> Res Z) (link : str) :
  split_post_link link = None -> parse_post_link int_other link = Ok None.
Proof. intros H. unfold parse_post_link. rewrite H. reflexivity. Qed.

Lemma bind_ok_inv {A B} (m : M A) (f : A -> M B) (st st' : St) (b : B)
    (t : list Event) :
  bind m f st = (Ok b, st', t) ->
  exists a st1 t1 t2,
    m st = (Ok a, st1, t1) /\ f a st1 = (Ok b, st', t2) /\ t = t1 ++ t2.
Proof.
  unfold bind. destruct (m st) as [[[a|e|] st1] t1]; try discriminate.
  destruct (f a st1) as [[r st2] t2] eqn:Hf. intros H. inversion H; subst.
  exists a, st1, t1, t2. auto.
Qed.

(** A fresh thread connects its client before anything else, and asks
    whether the session is authorized next. *)
Lemma ensure_auth_prefix (w : World) (floods : list Z) (st st' : St)
    (r : bool) (t : list Event) :
  client st = None ->
  ensure_auth w floods st = (Ok r, st', t) ->
  exists rest,
    t = Remote CallConnect :: Remote CallIsUserAuthorized :: rest.
Proof.
  intros Hclient Hrun.
  assert (Hstart :
    exists k, ensure_auth w floods
              = bind (ensure_client w)
                  (fun _ => bind (call CallIsUserAuthorized
                                       (is_user_authorized w)) k))
    by (destruct floods; eexists; reflexivity).
  destruct Hstart as [k Hstart]. rewrite Hstart in Hrun.
  apply bind_ok_inv in Hrun as (u & st1 & t1 & t2 & Hc & Hrun & ->).
  apply bind_ok_inv in Hrun as (a & st2 & t3 & t4 & Hcall & _ & ->).
  apply call_ok_inv in Hcall as (_ & _ & ->).
  unfold ensure_client, bind, get, modify, call, emit, lift, ret in Hc.
  rewrite Hclient in Hc. cbn in Hc.
  destruct (connect w) as [[]| |]; cbn in Hc; inversion Hc; subst.
  eexists. reflexivity.
Qed.

(** The texts of the two post-link errors are those of no other error. *)
Ltac other_event :=
  unfold other_than, bad_comment_link, bad_reaction_link;
  let Hx := fresh in
  intros Hx;
  first [ discriminate Hx
        | injection Hx as Hx; vm_compute in Hx; discriminate Hx ].

(** One step backwards from [H : In e0 (snd (bind m f st))], when [m]
    cannot emit [e0]. *)
Ltac event_back e0 H a st t Heq :=
  apply (in_bind_inv (other_than e0)) in H;
  [ destruct H as (a & st & t & Heq & H); cbv beta zeta in H
  | solve [emits_job ltac:(other_event)]
  | let Hnf := fresh in intros Hnf; apply Hnf; reflexivity ].

Lemma in_job_body (w : World) (e0 : Event) (body : M unit) (st : St) :
  (forall x, other_than e0
               (error_signal (u8 "❌ Критическая ошибка: " ++ x))) ->
  other_than e0 (Remote CallDisconnect) ->
  In e0 (snd (job w body st)) ->
  In e0 (snd (body st)) /\
  exists extra, snd (job w body st) = snd (body st) ++ extra.
Proof.
  intros Hcrit Hdisc Hin.
  destruct (job_events w (other_than e0) body st Hcrit Hdisc)
    as (extra & Heq & Hextra).
  split; [|exists extra; exact Heq].
  rewrite Heq in Hin. apply in_app_or in Hin as [Hin|Hin]; [exact Hin|].
  exfalso. exact (proj1 (List.Forall_forall _ _) Hextra e0 Hin eq_refl).
Qed.

Lemma body_in_job (w : World) (e0 : Event) (body : M unit) (st : St) :
  In e0 (snd (body st)) -> In e0 (snd (job w body st)).
Proof.
  intros Hin.
  destruct (job_events w (fun _ => True) body st) as (extra & Heq & _);
    [auto | exact I |].
  rewrite Heq. apply in_or_app. left. exact Hin.
Qed.

Section PostLinkCheck.

Variable w : World.
Variable link : str.
Variable limit : Z.
Hypothesis Hbad : split_post_link link = None.

Lemma comments_bad_link_forward :
  In bad_comment_link (events_of Comments w link limit) ->
  flag_value w 0 = true /\
  exists st2 t2 rest,
    ensure_auth w (flood_waits w) (count_read init_st) = (Ok true, st2, t2) /\
    events_of Comments w link limit
    = progress_signal (u8 "🔄 Инициализация клиента…") :: t2 ++ rest.
Proof.
  unfold events_of, run, parse_of, CommentsParserThread.parse. intros Hin.
  apply in_job_body in Hin as [Hin (extra & Hev)];
    [|intros x; other_event | other_event].
  rewrite Hev. clear Hev. unfold CommentsParserThread.parse_body in *.
  event_back bad_comment_link Hin r0 st0 t0 E0.
  pose proof E0 as E0'. apply is_running_inv in E0' as (Hr0 & -> & ->).
  cbn [flag_reads init_st] in Hr0.
  destruct r0; cbn [negb] in Hin; [|destruct Hin].
  event_back bad_comment_link Hin u1 st1 t1 E1.
  pose proof E1 as E1'. unfold emit in E1'. inversion E1'; subst.
  event_back bad_comment_link Hin ok st2 t2 E2.
  destruct ok; cbn [negb] in Hin; [|destruct Hin].
  split; [auto|]. exists st2, t2.
  rewrite (bind_events _ _ _ _ _ _ E0). cbn [negb app].
  rewrite (bind_events _ _ _ _ _ _ E1).
  rewrite (bind_events _ _ _ _ _ _ E2). cbn [negb app].
  eexists. split; [exact E2|]. rewrite <- app_assoc. reflexivity.
Qed.

Lemma comments_bad_link_backward :
  flag_value w 0 = true -> authenticates w ->
  In bad_comment_link (events_of Comments w link limit).
Proof.
  unfold authenticates, events_of, run, parse_of, CommentsParserThread.parse.
  intros Hflag Hauth. apply body_in_job.
  destruct (ensure_auth w (flood_waits w) (count_read init_st))
    as [[r st2] t2] eqn:E2.
  cbn [fst] in Hauth. subst r.
  unfold CommentsParserThread.parse_body.
  assert (E0 : is_running w init_st = (Ok true, count_read init_st, []))
    by (unfold is_running; cbn [flag_reads init_st]; now rewrite Hflag).
  rewrite (bind_events _ _ _ _ _ _ E0). cbn [negb app].
  erewrite bind_events by reflexivity.
  rewrite (bind_events _ _ _ _ _ _ E2). cbn [negb].
  rewrite (parse_post_link_invalid _ _ Hbad).
  apply in_or_app. right. apply in_or_app. right. left. reflexivity.
Qed.

Lemma comments_bad_link_no_fetch :
  Forall (fun e => is_fetch e = false) (events_of Comments w link limit).
Proof.
  unfold events_of, run, parse_of, CommentsParserThread.parse, CommentsParserThread.parse_body.
  rewrite (parse_post_link_invalid _ _ Hbad).
  match goal with
  | |- Forall ?P (snd (?m ?st)) => assert (H : emits P m)
  end; [emits_job ltac:(reflexivity) | apply H].
Qed.

Lemma reactions_bad_link_forward :
  In bad_reaction_link (events_of Reactions w link limit) ->
  flag_value w 0 = true /\
  exists st2 t2 rest,
    ensure_auth w (flood_waits w) (count_read init_st) = (Ok true, st2, t2) /\
    events_of Reactions w link limit = t2 ++ rest.
Proof.
  unfold events_of, run, parse_of, ReactionsParserThread.parse. intros Hin.
  apply in_job_body in Hin as [Hin (extra & Hev)];
    [|intros x; other_event | other_event].
  rewrite Hev. clear Hev. unfold ReactionsParserThread.parse_body in *.
  event_back bad_reaction_link Hin r0 st0 t0 E0.
  pose proof E0 as E0'. apply is_running_inv in E0' as (Hr0 & -> & ->).
  cbn [flag_reads init_st] in Hr0.
  destruct r0; cbn [negb] in Hin; [|destruct Hin].
  event_back bad_reaction_link Hin ok st2 t2 E2.
  destruct ok; cbn [negb] in Hin; [|destruct Hin].
  split; [auto|]. exists st2, t2.
  rewrite (bind_events _ _ _ _ _ _ E0). cbn [negb app].
  rewrite (bind_events _ _ _ _ _ _ E2). cbn [negb app].
  eexists. split; [exact E2|]. rewrite <- app_assoc. reflexivity.
Qed.

Lemma reactions_bad_link_backward :
  flag_value w 0 = true -> authenticates w ->
  In bad_reaction_link (events_of Reactions w link limit).
Proof.
  unfold authenticates, events_of, run, parse_of, ReactionsParserThread.parse.
  intros Hflag Hauth. apply body_in_job.
  destruct (ensure_auth w (flood_waits w) (count_read init_st))
    as [[r st2] t2] eqn:E2.
  cbn [fst] in Hauth. subst r.
  unfold ReactionsParserThread.parse_body.
  assert (E0 : is_running w init_st = (Ok true, count_read init_st, []))
    by (unfold is_running; cbn [flag_reads init_st]; now rewrite Hflag).
  rewrite (bind_events _ _ _ _ _ _ E0). cbn [negb app].
  rewrite (bind_events _ _ _ _ _ _ E2). cbn [negb].
  rewrite (parse_post_link_invalid _ _ Hbad).
  apply in_or_app. right. left. reflexivity.
Qed.

Lemma reactions_bad_link_no_fetch :
  Forall (fun e => is_fetch e = false) (events_of Reactions w link limit).
Proof.
  unfold events_of, run, parse_of, ReactionsParserThread.parse, ReactionsParserThread.parse_body.
  rewrite (parse_post_link_invalid _ _ Hbad).
  match goal with
  | |- Forall ?P (snd (?m ?st)) => assert (H : emits P m)
  end; [emits_job ltac:(reflexivity) | apply H].
Qed.

End PostLinkCheck.

(** C1, as the spec states it, fails: the jobs connect the client and
    ask it whether the session is authorized before they look at the
    link.  The link [https://t.me/5] is rejected by the post-link check
    of both jobs (and it passes the test of the window, which asks for
    a [/] followed by digits), after these calls. *)
Lemma bad_post_link_after_connection :
  split_post_link (u8 "https://t.me/5") = None /\
  events_of Comments alice_world (u8 "https://t.me/5") 10 =
    [ progress_signal (u8 "🔄 Инициализация клиента…");
      Remote CallConnect; Remote CallIsUserAuthorized; Remote CallGetMe;
      progress_signal (u8 "✅ Авторизован как: Alice");
      bad_comment_link; Remote CallDisconnect ] /\
  events_of Reactions alice_world (u8 "https://t.me/5") 10 =
    [ Remote CallConnect; Remote CallIsUserAuthorized; Remote CallGetMe;
      progress_signal (u8 "✅ Авторизован как: Alice");
      bad_reaction_link; Remote CallDisconnect ].
Proof. repeat split; reflexivity. Qed.

(** C1, amended. When the link fails the post-link check (fewer than
    two parts), the comments and the reactions job report the invalid
    link only after authentication: the error is emitted exactly when
    the job was not stopped at its start and [ensure_auth] returned
    [True]; it then follows the connection of the client and the
    question whether the session is authorized; and the job makes no
    call that resolves the target or fetches data. *)
Theorem bad_post_link_reported_after_auth (w : World) (link : str)
    (limit : Z) :
  split_post_link link = None ->
  ((In bad_comment_link (events_of Comments w link limit) <->
    flag_value w 0 = true /\ authenticates w) /\
   (In bad_comment_link (events_of Comments w link limit) ->
    exists rest,
      events_of Comments w link limit =
      progress_signal (u8 "🔄 Инициализация клиента…")
      :: Remote CallConnect :: Remote CallIsUserAuthorized :: rest) /\
   Forall (fun e => is_fetch e = false) (events_of Comments w link limit)) /\
  ((In bad_reaction_link (events_of Reactions w link limit) <->
    flag_value w 0 = true /\ authenticates w) /\
   (In bad_reaction_link (events_of Reactions w link limit) ->
    exists rest,
      events_of Reactions w link limit =
      Remote CallConnect :: Remote CallIsUserAuthorized :: rest) /\
   Forall (fun e => is_fetch e = false) (events_of Reactions w link limit)).
Proof.
  intros Hbad. split; split.
  - split.
    + intros Hin.
      destruct (comments_bad_link_forward w link limit Hin)
        as (Hflag & st2 & t2 & rest & E2 & _).
      split; [exact Hflag|]. unfold authenticates. now rewrite E2.
    + intros [Hflag Hauth].
      now apply comments_bad_link_backward.
  - split; [|now apply comments_bad_link_no_fetch].
    intros Hin.
    destruct (comments_bad_link_forward w link limit Hin)
      as (_ & st2 & t2 & rest & E2 & Hev).
    apply ensure_auth_prefix in E2 as [rest' ->]; [|reflexivity].
    rewrite Hev. eexists. reflexivity.
  - split.
    + intros Hin.
      destruct (reactions_bad_link_forward w link limit Hin)
        as (Hflag & st2 & t2 & rest & E2 & _).
      split; [exact Hflag|]. unfold authenticates. now rewrite E2.
    + intros [Hflag Hauth].
      now apply reactions_bad_link_backward.
  - split; [|now apply reactions_bad_link_no_fetch].
    intros Hin.
    destruct (reactions_bad_link_forward w link limit Hin)
      as (_ & st2 & t2 & rest & E2 & Hev).
    apply ensure_auth_prefix in E2 as [rest' ->]; [|reflexivity].
    rewrite Hev. eexists. reflexivity.
Qed.

Lemma bad_post_link_reported_after_auth_witness :
  split_post_link (u8 "https://t.me/5") = None /\
  (In bad_comment_link (events_of Comments alice_world (u8 "https://t.me/5") 10)
   <-> flag_value alice_world 0 = true /\ authenticates alice_world) /\
  Forall (fun e => is_fetch e = false)
    (events_of Reactions alice_world (u8 "https://t.me/5") 10).
Proof.
  split; [reflexivity|].
  pose proof (bad_post_link_reported_after_auth alice_world
                (u8 "https://t.me/5") 10 eq_refl) as [[H1 _] [_ [_ H2]]].
  split; [exact H1 | exact H2].
Defined.

(* ===================================================================== *)
(** ** Authentication that succeeds has reported no error *)
(* ===================================================================== *)

Section Clean.

Variable w : World.

Lemma clean_ret (b : bool) : clean (ret b).
Proof. intros st _. constructor. Qed.

Lemma clean_hang : clean hang.
Proof. intros st H. discriminate H. Qed.

Lemma clean_bind {A} (m : M A) (f : A -> M bool) :
  emits no_error m -> (forall a, clean (f a)) -> clean (bind m f).
Proof.
  intros Hm Hf st. unfold bind. specialize (Hm st).
  destruct (m st) as [[[a|e|] st1] t1]; cbn in *; try discriminate.
  specialize (Hf a st1). destruct (f a st1) as [[r st2] t2]; cbn in *.
  intros Hr. apply Forall_app. split; [exact Hm | exact (Hf Hr)].
Qed.

(** Code that ends in [return False] is clean, whatever it emits. *)
Lemma clean_fail {A} (m : M A) : clean (bind m (fun _ => ret false)).
Proof.
  intros st. unfold bind, ret.
  destruct (m st) as [[[a|e|] st1] t1]; cbn; discriminate.
Qed.

Lemma clean_try_except (m : M bool) (h : Exn -> M bool) :
  emits no_error m -> (forall e, clean (h e)) -> clean (try_except m h).
Proof.
  intros Hm Hh st. unfold try_except. specialize (Hm st).
  destruct (m st) as [[[a|e|] st1] t1] eqn:E; cbn in *;
    try (intros _; exact Hm).
  specialize (Hh e st1). destruct (h e st1) as [[r st2] t2]; cbn in *.
  intros Hr. apply Forall_app. split; [exact Hm | exact (Hh Hr)].
Qed.

End Clean.

Ltac clean_step :=
  lazymatch goal with
  | |- clean (bind _ (fun _ => ret false)) => apply clean_fail
  | |- clean (bind _ _) =>
      apply clean_bind; [solve [emits_job ltac:(reflexivity)] | intros ?]
  | |- clean (try_except _ _) =>
      apply clean_try_except;
      [solve [emits_job ltac:(reflexivity)] | intros ?]
  | |- clean (ret _) => apply clean_ret
  | |- clean hang => apply clean_hang
  | |- clean (match ?x with _ => _ end) => destruct x
  | |- clean (let _ := _ in _) => cbv zeta
  end.

Lemma ensure_auth_clean (w : World) (floods : list Z) :
  clean (ensure_auth w floods).
Proof.
  induction floods as [|seconds floods IH]; cbn [ensure_auth];
    repeat clean_step; exact IH.
Qed.

(* ===================================================================== *)
(** ** Jobs with a limit of zero *)
(* ===================================================================== *)

Section Runs.

Variable w : World.

Lemma runs_ret {A} (a : A) (st : St) : runs (ret a) st a st [].
Proof. reflexivity. Qed.

Lemma runs_bind {A B} (m : M A) (f : A -> M B) (st st1 st2 : St)
    (a : A) (b : B) (t1 t2 : list Event) :
  runs m st a st1 t1 -> runs (f a) st1 b st2 t2 ->
  runs (bind m f) st b st2 (t1 ++ t2).
Proof. unfold runs, bind. intros -> ->. reflexivity. Qed.

Lemma runs_emit (e : Event) (st : St) : runs (emit e) st tt st [e].
Proof. reflexivity. Qed.

Lemma runs_lift {A} (r : Res A) (a : A) (st : St) :
  r = Ok a -> runs (lift r) st a st [].
Proof. intros ->. reflexivity. Qed.

Lemma runs_call {A} (c : Call) (r : Res A) (a : A) (st : St) :
  r = Ok a -> runs (call c r) st a st [Remote c].
Proof. intros ->. reflexivity. Qed.

Lemma runs_is_running (st : St) :
  stop_after w = None -> runs (is_running w) st true (count_read st) [].
Proof.
  intros Hstop. unfold runs, is_running, flag_value. now rewrite Hstop.
Qed.

Lemma runs_try_except {A} (m : M A) (h : Exn -> M A) (st st1 : St)
    (a : A) (t1 : list Event) :
  runs m st a st1 t1 -> runs (try_except m h) st a st1 t1.
Proof. unfold runs, try_except. intros ->. reflexivity. Qed.

Lemma runs_fetch_admin_ids (entity : Entity) (st : St) :
  runs (fetch_admin_ids w entity) st
    (admin_set (it_items (iter_participants w entity true None))) st
    [Remote (CallIterParticipants entity true None)].
Proof. apply fetch_admin_ids_result. Qed.

(** A loop over no item. *)
Lemma runs_async_for_empty {A S} (it : Iteration A)
    (body : A -> S -> M (Flow S)) (s : S) (st : St) :
  it = no_items -> runs (async_for it body s) st s st [].
Proof. intros ->. reflexivity. Qed.

End Runs.

(** Runs thread code forwards, on what the hypotheses say of the world. *)
Ltac run_all :=
  lazymatch goal with
  | |- runs (bind _ _) _ _ _ _ =>
      eapply runs_bind; [run_all | cbv beta zeta; run_all]
  | |- runs (ret _) _ _ _ _ => apply runs_ret
  | |- runs (emit _) _ _ _ _ => apply runs_emit
  | |- runs (is_running _) _ _ _ _ => apply runs_is_running; assumption
  | |- runs (call _ _) _ _ _ _ => apply runs_call; eassumption
  | |- runs (lift _) _ _ _ _ => apply runs_lift; eassumption
  | |- runs (try_except _ _) _ _ _ _ => apply runs_try_except; run_all
  | |- runs (fetch_admin_ids _ _) _ _ _ _ => apply runs_fetch_admin_ids
  | |- runs (ensure_auth _ _) _ _ _ _ => eassumption
  | |- runs (async_for _ _ _) _ _ _ _ =>
      apply runs_async_for_empty; assumption
  | |- runs (for_in [] _ _) _ _ _ _ => reflexivity
  | |- runs (collect_members _ _ _) _ _ _ _ =>
      unfold collect_members; run_all
  | |- runs (collect_messages _ _ _ _ _ _) _ _ _ _ =>
      unfold collect_messages; run_all
  | |- runs (transform_members _ _ _) _ _ _ _ => reflexivity
  | |- runs (transform_messages _ _) _ _ _ _ => reflexivity
  | |- runs (transform_reactions _ _) _ _ _ _ =>
      unfold transform_reactions; run_all
  | |- runs (if negb true then _ else _) _ _ _ _ => cbn [negb]; run_all
  | |- runs (if true then _ else _) _ _ _ _ => cbv iota; run_all
  | |- runs (if false then _ else _) _ _ _ _ => cbv iota; run_all
  | |- runs (match Some _ with _ => _ end) _ _ _ _ => cbv iota beta; run_all
  | H : ?b = _ |- runs (if ?b then _ else _) _ _ _ _ => rewrite H; run_all
  | H : ?l = _ |- runs (for_in ?l _ _) _ _ _ _ => rewrite H; run_all
  end.

Lemma completes_app (pre rest : list Event) (title : str)
    (rows : list Row) :
  Forall quiet pre -> completes rest title rows ->
  completes (pre ++ rest) title rows.
Proof.
  intros Hpre [Hout Herr]. split.
  - now rewrite outcome_app_quiet.
  - apply Forall_app. split; [|exact Herr].
    eapply Forall_impl; [exact Hpre|]. intros e [_ He]. exact He.
Qed.

Lemma completes_finish (rest : list Event) (title : str)
    (rows : list Row) :
  Forall no_error rest ->
  completes ([finished_signal title rows] ++ rest) title rows.
Proof.
  intros Hrest. split; [reflexivity|].
  constructor; [reflexivity | exact Hrest].
Qed.

Lemma job_ok_events (w : World) (body : M unit) (st st1 : St)
    (t1 : list Event) :
  runs body st tt st1 t1 ->
  exists extra,
    snd (job w body st) = t1 ++ extra /\
    Forall no_error extra.
Proof.
  intros Hbody. unfold job, try_finally, try_except. rewrite Hbody.
  pose proof (emits_cleanup w no_error eq_refl st1) as Hc.
  destruct (cleanup w st1) as [[[[]|e|] st2] t2]; cbn [snd] in *;
    exists t2; auto.
Qed.

(** What [authenticates] gives: the run of [ensure_auth], with quiet
    events. *)
Lemma authenticates_run (w : World) :
  authenticates w ->
  exists st2 t2,
    runs (ensure_auth w (flood_waits w)) (count_read init_st) true st2 t2 /\
    Forall quiet t2.
Proof.
  unfold authenticates, runs. intros Hauth.
  pose proof (ensure_auth_clean w (flood_waits w) (count_read init_st) Hauth)
    as Hclean.
  pose proof (emits_ensure_auth w not_finished (flood_waits w)) as Hnf.
  specialize (Hnf ltac:(intros e []; reflexivity) (count_read init_st)).
  destruct (ensure_auth w (flood_waits w) (count_read init_st))
    as [[r st2] t2]. cbn [fst snd] in *. subst r.
  exists st2, t2. split; [reflexivity|].
  apply List.Forall_forall. intros e He. split.
  - exact (proj1 (List.Forall_forall _ _) Hnf e He).
  - exact (proj1 (List.Forall_forall _ _) Hclean e He).
Qed.

Lemma no_items_at_zero {A} (it : Iteration A) :
  length (it_items it) <= Z.to_nat 0 -> it_ending it = None ->
  it = no_items.
Proof.
  destruct it as [items ending]; cbn. intros Hlen ->.
  destruct items; [reflexivity | cbn in Hlen; lia].
Qed.

(** Closes [completes t title rows] for the events of a run. *)
Ltac completes_all :=
  repeat first
    [ apply completes_finish
    | apply completes_app;
      [ first [ assumption | apply List.Forall_nil
              | repeat constructor ] | ] ];
  try assumption.

Lemma members_limit_zero (w : World) (link : str) (entity : Entity) :
  stop_after w = None -> authenticates w -> honours_limit w ->
  get_entity w (_clean_link link) = Ok entity ->
  (is_channel entity = true ->
   exists count, get_full_channel w entity = Ok count) ->
  it_ending (iter_participants w entity false (Some 0%Z)) = None ->
  completes (events_of Members w link 0) (getattr_title entity []) [].
Proof.
  intros Hstop Hauth [Hlimit _] Hentity Hfull Hend.
  destruct (authenticates_run w Hauth) as (st2 & t2 & E2 & Hquiet).
  pose proof (no_items_at_zero _ (Hlimit entity false 0%Z) Hend) as Hit.
  unfold events_of, run, parse_of, MembersParserThread.parse.
  assert (Hbody : exists st1 t1,
    runs (MembersParserThread.parse_body w link 0) init_st tt st1 t1 /\
    forall extra, Forall no_error extra ->
      completes (t1 ++ extra) (getattr_title entity []) []).
  { destruct (is_channel entity) eqn:Hch.
    - destruct (Hfull eq_refl) as [count Hcount].
      eexists _, _. split; [unfold MembersParserThread.parse_body; run_all|].
      intros extra Hextra. rewrite <- !app_assoc. completes_all.
    - eexists _, _. split; [unfold MembersParserThread.parse_body; run_all|].
      intros extra Hextra. rewrite <- !app_assoc. completes_all. }
  destruct Hbody as (st1 & t1 & Hrun & Hcomp).
  destruct (job_ok_events w _ _ _ _ Hrun) as (extra & -> & Hextra).
  now apply Hcomp.
Qed.

Lemma messages_limit_zero (w : World) (link : str) (entity : Entity) :
  stop_after w = None -> authenticates w -> honours_limit w ->
  get_entity w (_clean_link link) = Ok entity ->
  it_ending (iter_messages w entity 0 None) = None ->
  completes (events_of Messages w link 0)
    (u8 "Сообщения чата " ++ getattr_title entity (_clean_link link)) [].
Proof.
  intros Hstop Hauth [_ Hlimit] Hentity Hend.
  destruct (authenticates_run w Hauth) as (st2 & t2 & E2 & Hquiet).
  pose proof (no_items_at_zero _ (Hlimit entity 0%Z None) Hend) as Hit.
  unfold events_of, run, parse_of, MessagesParserThread.parse.
  assert (Hbody : exists st1 t1,
    runs (MessagesParserThread.parse_body w link 0) init_st tt st1 t1 /\
    forall extra, Forall no_error extra ->
      completes (t1 ++ extra)
        (u8 "Сообщения чата " ++ getattr_title entity (_clean_link link)) []).
  { eexists _, _. split; [unfold MessagesParserThread.parse_body; run_all|].
    intros extra Hextra. rewrite <- !app_assoc. completes_all. }
  destruct Hbody as (st1 & t1 & Hrun & Hcomp).
  destruct (job_ok_events w _ _ _ _ Hrun) as (extra & -> & Hextra).
  now apply Hcomp.
Qed.

Lemma comments_limit_zero (w : World) (link channel_part : str)
    (msg_id : Z) (entity : Entity) :
  stop_after w = None -> authenticates w -> honours_limit w ->
  parse_post_link (int_other w) link = Ok (Some (channel_part, msg_id)) ->
  get_entity w channel_part = Ok entity ->
  it_ending (iter_messages w entity 0 (Some msg_id)) = None ->
  completes (events_of Comments w link 0)
    (u8 "Комментарии к посту #" ++ of_Z msg_id) [].
Proof.
  intros Hstop Hauth [_ Hlimit] Hlink Hentity Hend.
  destruct (authenticates_run w Hauth) as (st2 & t2 & E2 & Hquiet).
  pose proof (no_items_at_zero _ (Hlimit entity 0%Z (Some msg_id)) Hend)
    as Hit.
  unfold events_of, run, parse_of, CommentsParserThread.parse.
  assert (Hbody : exists st1 t1,
    runs (CommentsParserThread.parse_body w link 0) init_st tt st1 t1 /\
    forall extra, Forall no_error extra ->
      completes (t1 ++ extra) (u8 "Комментарии к посту #" ++ of_Z msg_id) []).
  { eexists _, _. split; [unfold CommentsParserThread.parse_body; run_all|].
    intros extra Hextra. rewrite <- !app_assoc. completes_all. }
  destruct Hbody as (st1 & t1 & Hrun & Hcomp).
  destruct (job_ok_events w _ _ _ _ Hrun) as (extra & -> & Hextra).
  now apply Hcomp.
Qed.

Lemma reactions_limit_zero (w : World) (link channel_part : str)
    (msg_id : Z) (entity : Entity) (response : ReactionsList) :
  stop_after w = None -> authenticates w ->
  parse_post_link (int_other w) link = Ok (Some (channel_part, msg_id)) ->
  get_entity w channel_part = Ok entity ->
  get_message_reactions_list w entity msg_id 0 = Ok response ->
  resp_users response = [] ->
  completes (events_of Reactions w link 0)
    (u8 "Реакции поста #" ++ of_Z msg_id) [].
Proof.
  intros Hstop Hauth Hlink Hentity Hresp Husers.
  destruct (authenticates_run w Hauth) as (st2 & t2 & E2 & Hquiet).
  unfold events_of, run, parse_of, ReactionsParserThread.parse.
  assert (Hbody : exists st1 t1,
    runs (ReactionsParserThread.parse_body w link 0) init_st tt st1 t1 /\
    forall extra, Forall no_error extra ->
      completes (t1 ++ extra) (u8 "Реакции поста #" ++ of_Z msg_id) []).
  { eexists _, _. split; [unfold ReactionsParserThread.parse_body; run_all|].
    intros extra Hextra. rewrite <- !app_assoc. completes_all. }
  destruct Hbody as (st1 & t1 & Hrun & Hcomp).
  destruct (job_ok_events w _ _ _ _ Hrun) as (extra & -> & Hextra).
  now apply Hcomp.
Qed.

(** C2, as the spec states it, fails.  With [limit = 0] a job still
    ends with an error when its target does not resolve; and the
    comments job completes under a title made of the post number, not
    under the title of the resolved chat. *)
Lemma limit_zero_not_always_completed :
  outcome (events_of Members lost_world (u8 "t.me/chat") 0)
  = Failed (u8 "❌ Не удалось найти группу: Cannot find any entity") /\
  get_entity alice_world (u8 "chat") = Ok (EntChat 5 (u8 "Chat")) /\
  outcome (events_of Comments alice_world (u8 "chat/42") 0)
  = Completed (u8 "Комментарии к посту #42") [] /\
  u8 "Комментарии к посту #42" <> u8 "Chat".
Proof. repeat split; vm_compute; discriminate. Qed.

(** C2, amended. With [limit = 0], when nobody stops the job,
    authentication succeeds, the target resolves (for the comments and
    reactions jobs: the post link parses), the [GetFullChannelRequest]
    of the members job succeeds when its target is a channel, and the
    client's iterators yield at most [limit] items and end without an
    exception, the members, messages and comments jobs complete with
    no record and without an error, under the title of the chat
    (members), "Сообщения чата " and that title (messages) or
    "Комментарии к посту #" and the post number (comments); the
    reactions job completes likewise, under "Реакции поста #" and the
    post number, when the response names no user. *)
Theorem limit_zero_completes (w : World) (link : str) :
  stop_after w = None -> authenticates w -> honours_limit w ->
  (forall entity,
     get_entity w (_clean_link link) = Ok entity ->
     (is_channel entity = true ->
      exists count, get_full_channel w entity = Ok count) ->
     it_ending (iter_participants w entity false (Some 0%Z)) = None ->
     completes (events_of Members w link 0) (getattr_title entity []) []) /\
  (forall entity,
     get_entity w (_clean_link link) = Ok entity ->
     it_ending (iter_messages w entity 0 None) = None ->
     completes (events_of Messages w link 0)
       (u8 "Сообщения чата " ++ getattr_title entity (_clean_link link)) []) /\
  (forall channel_part msg_id entity,
     parse_post_link (int_other w) link = Ok (Some (channel_part, msg_id)) ->
     get_entity w channel_part = Ok entity ->
     it_ending (iter_messages w entity 0 (Some msg_id)) = None ->
     completes (events_of Comments w link 0)
       (u8 "Комментарии к посту #" ++ of_Z msg_id) []) /\
  (forall channel_part msg_id entity response,
     parse_post_link (int_other w) link = Ok (Some (channel_part, msg_id)) ->
     get_entity w channel_part = Ok entity ->
     get_message_reactions_list w entity msg_id 0 = Ok response ->
     resp_users response = [] ->
     completes (events_of Reactions w link 0)
       (u8 "Реакции поста #" ++ of_Z msg_id) []).
Proof.
  intros Hstop Hauth Hlimit. split; [|split; [|split]]; intros.
  - apply members_limit_zero; assumption.
  - apply messages_limit_zero; assumption.
  - eapply comments_limit_zero; eassumption.
  - eapply reactions_limit_zero; eassumption.
Qed.

Lemma limit_zero_completes_witness :
  stop_after empty_channel_world = None /\
  authenticates empty_channel_world /\
  honours_limit empty_channel_world /\
  is_channel channel9 = true /\
  completes (events_of Members empty_channel_world (u8 "ch/42") 0)
    (u8 "Ch") [] /\
  completes (events_of Messages empty_channel_world (u8 "ch/42") 0)
    (u8 "Сообщения чата Ch") [] /\
  completes (events_of Comments empty_channel_world (u8 "ch/42") 0)
    (u8 "Комментарии к посту #42") [] /\
  completes (events_of Reactions empty_channel_world (u8 "ch/42") 0)
    (u8 "Реакции поста #42") [].
Proof.
  assert (Hauth : authenticates empty_channel_world) by reflexivity.
  assert (Hlimit : honours_limit empty_channel_world)
    by (split; [intros entity []|]; intros; exact (Nat.le_0_l _)).
  destruct (limit_zero_completes empty_channel_world (u8 "ch/42")
              eq_refl Hauth Hlimit) as (Hm & Hs & Hc & Hr).
  split; [reflexivity|]. split; [exact Hauth|]. split; [exact Hlimit|].
  split; [reflexivity|].
  split; [exact (Hm channel9 eq_refl
                    (fun _ => ex_intro _ (Some 3%Z) eq_refl) eq_refl)|].
  split; [exact (Hs channel9 eq_refl eq_refl)|].
  split; [exact (Hc (u8 "ch") 42%Z channel9 eq_refl eq_refl eq_refl)|].
  exact (Hr (u8 "ch") 42%Z channel9
            {| resp_reactions := []; resp_users := [] |}
            eq_refl eq_refl eq_refl eq_refl).
Defined.

(** The condition on [GetFullChannelRequest] is needed: when it fails
    for a channel, the members job ends with the error of line 249,
    whatever the limit. *)
Example members_limit_zero_full_channel_failure :
  stop_after no_full_channel_world = None /\
  authenticates no_full_channel_world /\
  honours_limit no_full_channel_world /\
  get_entity no_full_channel_world (_clean_link (u8 "ch")) = Ok channel9 /\
  it_ending (iter_participants no_full_channel_world channel9 false
               (Some 0%Z)) = None /\
  outcome (events_of Members no_full_channel_world (u8 "ch") 0)
  = Failed (u8 "❌ Критическая ошибка: CHANNEL_PRIVATE").
Proof.
  split; [reflexivity|]. split; [vm_compute; reflexivity|].
  split; [split; [intros entity []|]; intros; exact (Nat.le_0_l _)|].
  split; [reflexivity|]. split; [reflexivity|].
  vm_compute. reflexivity.
Qed.

(* ===================================================================== *)
(** ** Loops that buffer while the flag is up *)
(* ===================================================================== *)

(** A loop whose rounds read [is_running], leave by [break] when it is
    [False] and append [f x] otherwise: when no read has seen [False],
    every item has been appended. *)
Lemma guarded_loop_all {A B} (w : World) (f : A -> B)
    (body : A -> list B -> M (Flow (list B))) (items : list A)
    (ending : option Exn) :
  (forall x acc st,
     (flag_value w (flag_reads st) = true ->
      exists t, body x acc st
                = (Ok (Continue (acc ++ [f x])), count_read st, t)) /\
     (flag_value w (flag_reads st) = false ->
      body x acc st = (Ok (Break acc), count_read st, []))) ->
  forall acc st res e st' t,
    async_for_keep items ending body acc st = (Ok (res, e), st', t) ->
    all_reads_true w st' ->
    res = acc ++ List.map f items /\ e = ending /\
    flag_reads st <= flag_reads st'.
Proof.
  intros Hbody.
  induction items as [|x items IH]; intros acc st res e st' t Hrun Hall.
  - cbn in Hrun. inversion Hrun; subst. rewrite app_nil_r. auto.
  - cbn [async_for_keep] in Hrun. unfold bind at 1 in Hrun.
    destruct (Hbody x acc st) as [Hup Hdown].
    destruct (flag_value w (flag_reads st)) eqn:Hflag.
    + destruct (Hup eq_refl) as [t0 Hb]. rewrite Hb in Hrun.
      match type of Hrun with
      | context [async_for_keep ?i ?en ?b ?a ?s] =>
          destruct (async_for_keep i en b a s) as [[[[res1 e1]| |] st1] t1]
            eqn:Hrest
      end; try discriminate.
      inversion Hrun; subst.
      destruct (IH _ _ _ _ _ _ Hrest Hall) as (-> & -> & Hle).
      rewrite <- app_assoc. cbn in Hle. cbn. repeat split; auto. lia.
    + exfalso. rewrite (Hdown eq_refl) in Hrun. unfold ret in Hrun.
      inversion Hrun; subst.
      specialize (Hall (flag_reads st)). cbn in Hall.
      rewrite Hall in Hflag by lia. discriminate.
Qed.

Lemma collect_members_all (w : World) (entity : Entity) (limit : Z)
    (st st' : St) (members : list User) (t : list Event) :
  collect_members w entity limit st = (Ok members, st', t) ->
  all_reads_true w st' ->
  members = it_items (iter_participants w entity false (Some limit)) /\
  flag_reads st <= flag_reads st'.
Proof.
  intros Hrun Hall. unfold collect_members, async_for in Hrun.
  unfold bind at 1 in Hrun. unfold emit at 1 in Hrun.
  unfold bind at 1 in Hrun.
  match type of Hrun with
  | context [async_for_keep ?i ?en ?b ?a ?s] =>
      destruct (async_for_keep i en b a s) as [[[[res1 e1]| |] st1] t1]
        eqn:Hloop
  end; try discriminate.
  cbn [fst snd] in Hrun.
  destruct e1 as [x|]; unfold raise, ret in Hrun; inversion Hrun; subst.
  apply (guarded_loop_all w (fun u => u)) in Hloop; [|clear|exact Hall].
  - destruct Hloop as (-> & _ & Hle). rewrite map_id. auto.
  - intros x acc st0. unfold bind, is_running, emit, ret. split; intros ->.
    + cbn [negb]. cbv zeta.
      destruct (len (acc ++ [x]) mod 50 =? 0)%Z; eexists; reflexivity.
    + reflexivity.
Qed.

Lemma enumerate_map_snd {A} (l : list A) : List.map snd (enumerate l) = l.
Proof.
  unfold enumerate. generalize 0.
  induction l as [|x l IH]; intros n; cbn; [reflexivity|].
  now rewrite IH.
Qed.

Lemma transform_members_all (w : World) (admin_ids : gset Z)
    (members : list User) (st st' : St) (rows : list Row)
    (t : list Event) :
  transform_members w admin_ids members st = (Ok rows, st', t) ->
  all_reads_true w st' ->
  rows = List.map (member_row admin_ids) members /\
  flag_reads st <= flag_reads st'.
Proof.
  intros Hrun Hall. unfold transform_members, for_in, async_for in Hrun.
  unfold bind at 1 in Hrun. cbn [it_items it_ending] in Hrun.
  match type of Hrun with
  | context [async_for_keep ?i ?en ?b ?a ?s] =>
      destruct (async_for_keep i en b a s) as [[[[res1 e1]| |] st1] t1]
        eqn:Hloop
  end; try discriminate.
  cbn [fst snd] in Hrun.
  destruct e1 as [x|]; unfold raise, ret in Hrun; inversion Hrun; subst.
  apply (guarded_loop_all w (fun p => member_row admin_ids (snd p)))
    in Hloop; [|clear|exact Hall].
  - destruct Hloop as (-> & _ & Hle). split; [|exact Hle].
    cbn [app]. rewrite <- (enumerate_map_snd members) at 2.
    now rewrite List.map_map.
  - intros [idx user] acc st0. unfold bind, is_running, emit, ret.
    split; intros ->.
    + cbn [negb snd]. cbv zeta.
      destruct ((Z.of_nat idx + 1) mod 50 =? 0)%Z; eexists; reflexivity.
    + reflexivity.
Qed.

(** What a [finished_signal] of the members job tells. *)
Lemma members_finished_inv (w : World) (link : str) (limit : Z)
    (title : str) (rows : list Row) :
  In (finished_signal title rows) (events_of Members w link limit) ->
  exists entity,
    get_entity w (_clean_link link) = Ok entity /\
    title = getattr_title entity [] /\
    rows = List.map
             (member_row
                (admin_set (it_items (iter_participants w entity true None))))
             (it_items (iter_participants w entity false (Some limit))).
Proof.
  intros Hin. unfold events_of, run, parse_of in Hin.
  apply finished_in_body in Hin.
  unfold MembersParserThread.parse_body in Hin.
  finished_back Hin r0 st0 t0 E0.
  destruct r0; cbn [negb] in Hin; [|destruct Hin].
  finished_back Hin u1 st1 t1 E1.
  finished_back Hin ok st2 t2 E2.
  destruct ok; cbn [negb] in Hin; [|destruct Hin].
  finished_back Hin r3 st3 t3 E3.
  destruct r3; cbn [negb] in Hin; [|destruct Hin].
  finished_back Hin u4 st4 t4 E4.
  finished_back Hin found st5 t5 E5.
  destruct found as [entity|]; [|destruct Hin].
  finished_back Hin count st6 t6 E6.
  finished_back Hin u7 st7 t7 E7.
  finished_back Hin u8' st8 t8 E8.
  finished_back Hin admin_ids st9 t9 E9.
  finished_back Hin members st10 t10 E10.
  finished_back Hin parsed st11 t11 E11.
  apply finish_inv in Hin as (-> & -> & Hall).
  rewrite fetch_admin_ids_result in E9. inversion E9; subst.
  apply transform_members_all in E11 as [-> Hle11];
    [|intros k Hk; apply Hall; cbn; lia].
  apply collect_members_all in E10 as [-> _];
    [|intros k Hk; apply Hall; cbn; lia].
  exists entity. split; [|split; reflexivity].
  unfold try_except, bind, call, emit, lift, ret in E5. cbn in E5.
  destruct (get_entity w (_clean_link link)) as [e| |];
    cbn in E5; inversion E5; subst. reflexivity.
Qed.

(** What a [finished_signal] of the messages job tells. *)
Lemma messages_finished_inv (w : World) (link : str) (limit : Z)
    (title : str) (rows : list Row) :
  In (finished_signal title rows) (events_of Messages w link limit) ->
  exists entity,
    get_entity w (_clean_link link) = Ok entity /\
    title = u8 "Сообщения чата " ++ getattr_title entity (_clean_link link) /\
    Forall2 (row_of message_row)
      (it_items (iter_messages w entity limit None)) rows.
Proof.
  intros Hin. unfold events_of, run, parse_of in Hin.
  apply finished_in_body in Hin.
  unfold MessagesParserThread.parse_body in Hin.
  finished_back Hin r0 st0 t0 E0.
  destruct r0; cbn [negb] in Hin; [|destruct Hin].
  finished_back Hin u1 st1 t1 E1.
  finished_back Hin ok st2 t2 E2.
  destruct ok; cbn [negb] in Hin; [|destruct Hin].
  finished_back Hin entity st3 t3 E3.
  finished_back Hin u4 st4 t4 E4.
  finished_back Hin u5 st5 t5 E5.
  finished_back Hin messages st6 t6 E6.
  finished_back Hin parsed st7 t7 E7.
  apply finish_inv in Hin as (-> & -> & Hall).
  apply call_ok_inv in E3 as (Hentity & _ & _).
  apply transform_messages_rows in E7 as (-> & Hrows).
  apply collect_messages_all in E6;
    [|intros k Hk; apply Hall; cbn; lia].
  subst messages. exists entity. auto.
Qed.

(** What a [finished_signal] of the comments job tells. *)
Lemma comments_finished_inv (w : World) (link : str) (limit : Z)
    (title : str) (rows : list Row) :
  In (finished_signal title rows) (events_of Comments w link limit) ->
  exists channel_part msg_id entity,
    parse_post_link (int_other w) link = Ok (Some (channel_part, msg_id)) /\
    get_entity w channel_part = Ok entity /\
    title = u8 "Комментарии к посту #" ++ of_Z msg_id /\
    Forall2 (row_of comment_row)
      (it_items (iter_messages w entity limit (Some msg_id))) rows.
Proof.
  intros Hin. unfold events_of, run, parse_of in Hin.
  apply finished_in_body in Hin.
  unfold CommentsParserThread.parse_body in Hin.
  finished_back Hin r0 st0 t0 E0.
  destruct r0; cbn [negb] in Hin; [|destruct Hin].
  finished_back Hin u1 st1 t1 E1.
  finished_back Hin ok st2 t2 E2.
  destruct ok; cbn [negb] in Hin; [|destruct Hin].
  finished_back Hin target st3 t3 E3.
  apply lift_ok_inv in E3 as (Htarget & _ & _).
  destruct target as [[channel_part msg_id]|];
    [|cbn in Hin; destruct Hin as [Hin|[]]; discriminate Hin].
  finished_back Hin entity st4 t4 E4.
  finished_back Hin u5 st5 t5 E5.
  finished_back Hin u6 st6 t6 E6.
  finished_back Hin comments st7 t7 E7.
  finished_back Hin parsed st8 t8 E8.
  apply finish_inv in Hin as (-> & -> & Hall).
  apply call_ok_inv in E4 as (Hentity & _ & _).
  apply transform_messages_rows in E8 as (-> & Hrows).
  apply collect_messages_all in E7;
    [|intros k Hk; apply Hall; cbn; lia].
  subst comments. exists channel_part, msg_id, entity. auto.
Qed.

(** The loop of lines 431-441 makes a record of each user in turn and
    stops after [reaction_rounds limit] of them. *)
Lemma transform_reactions_loop (response : ReactionsList) (limit : Z)
    (users : list User) :
  forall (acc : list Row) (st : St) res e st' t,
    async_for_keep users None
      (fun user parsed =>
         emoji <- lift (find_emoticon (resp_reactions response)
                                      (user_id user)) ;;
         let parsed := parsed ++ [reaction_row emoji user] in
         if (len parsed >=? limit)%Z then ret (Break parsed)
         else ret (Continue parsed))%thread
      acc st = (Ok (res, e), st', t) ->
    (len acc < Z.max 1 limit)%Z ->
    exists new,
      res = acc ++ new /\
      Forall2 (reaction_row_of (resp_reactions response))
        (firstn (Z.to_nat (Z.max 1 limit - len acc)) users) new.
Proof.
  induction users as [|user users IH]; intros acc st res e st' t Hrun Hlt.
  - cbn in Hrun. inversion Hrun; subst. exists [].
    rewrite app_nil_r, firstn_nil. split; [reflexivity | constructor].
  - cbn [async_for_keep] in Hrun. unfold bind at 1 in Hrun.
    unfold bind at 1 in Hrun. unfold lift at 1 in Hrun.
    destruct (find_emoticon (resp_reactions response) (user_id user))
      as [emoji| |] eqn:Hfind; try discriminate.
    cbv zeta in Hrun.
    destruct (len (acc ++ [reaction_row emoji user]) >=? limit)%Z eqn:Hge;
      unfold ret at 1 in Hrun; rewrite len_snoc in Hge;
      rewrite Z.geb_leb in Hge.
    + apply Z.leb_le in Hge. inversion Hrun; subst.
      exists [reaction_row emoji user]. split; [reflexivity|].
      replace (Z.to_nat (Z.max 1 limit - len acc)) with 1
        by (unfold len in *; lia).
      cbn. constructor; [|constructor]. exists emoji. auto.
    + apply Z.leb_gt in Hge.
      match type of Hrun with
      | context [async_for_keep ?i ?en ?b ?a ?s] =>
          destruct (async_for_keep i en b a s) as [[[[res1 e1]| |] st1] t1]
            eqn:Hrest
      end; try discriminate.
      inversion Hrun; subst.
      destruct (IH _ _ _ _ _ _ Hrest) as (new & -> & Hnew);
        [rewrite len_snoc; unfold len in *; lia|].
      exists (reaction_row emoji user :: new).
      rewrite <- app_assoc. split; [reflexivity|].
      rewrite len_snoc in Hnew.
      replace (Z.to_nat (Z.max 1 limit - len acc))
        with (S (Z.to_nat (Z.max 1 limit - (len acc + 1))))
        by (unfold len in *; lia).
      cbn [firstn]. constructor; [|exact Hnew]. exists emoji. auto.
Qed.

Lemma transform_reactions_rows (response : ReactionsList) (limit : Z)
    (st st' : St) (rows : list Row) (t : list Event) :
  transform_reactions response limit st = (Ok rows, st', t) ->
  Forall2 (reaction_row_of (resp_reactions response))
    (firstn (reaction_rounds limit) (resp_users response)) rows.
Proof.
  intros Hrun. unfold transform_reactions, for_in, async_for in Hrun.
  unfold bind at 1 in Hrun. cbn [it_items it_ending] in Hrun.
  match type of Hrun with
  | context [async_for_keep ?i ?en ?b ?a ?s] =>
      destruct (async_for_keep i en b a s) as [[[[res1 e1]| |] st1] t1]
        eqn:Hloop
  end; try discriminate.
  cbn [fst snd] in Hrun.
  destruct e1 as [x|]; unfold raise, ret in Hrun; inversion Hrun; subst.
  apply transform_reactions_loop in Hloop; [|unfold len; cbn [length]; lia].
  destruct Hloop as (new & -> & Hnew). cbn [app].
  unfold reaction_rounds. unfold len in Hnew. cbn [length] in Hnew.
  now rewrite Z.sub_0_r in Hnew.
Qed.

(** What a [finished_signal] of the reactions job tells. *)
Lemma reactions_finished_inv (w : World) (link : str) (limit : Z)
    (title : str) (rows : list Row) :
  In (finished_signal title rows) (events_of Reactions w link limit) ->
  exists channel_part msg_id entity response,
    parse_post_link (int_other w) link = Ok (Some (channel_part, msg_id)) /\
    get_entity w channel_part = Ok entity /\
    get_message_reactions_list w entity msg_id limit = Ok response /\
    title = u8 "Реакции поста #" ++ of_Z msg_id /\
    Forall2 (reaction_row_of (resp_reactions response))
      (firstn (reaction_rounds limit) (resp_users response)) rows.
Proof.
  intros Hin. unfold events_of, run, parse_of in Hin.
  apply finished_in_body in Hin.
  unfold ReactionsParserThread.parse_body in Hin.
  finished_back Hin r0 st0 t0 E0.
  destruct r0; cbn [negb] in Hin; [|destruct Hin].
  finished_back Hin ok st2 t2 E2.
  destruct ok; cbn [negb] in Hin; [|destruct Hin].
  finished_back Hin target st3 t3 E3.
  apply lift_ok_inv in E3 as (Htarget & _ & _).
  destruct target as [[channel_part msg_id]|];
    [|cbn in Hin; destruct Hin as [Hin|[]]; discriminate Hin].
  finished_back Hin entity st4 t4 E4.
  finished_back Hin u5 st5 t5 E5.
  finished_back Hin fetched st6 t6 E6.
  destruct fetched as [response|]; [|destruct Hin].
  finished_back Hin parsed st7 t7 E7.
  apply finish_inv in Hin as (-> & -> & Hall).
  apply call_ok_inv in E4 as (Hentity & _ & _).
  apply transform_reactions_rows in E7.
  exists channel_part, msg_id, entity, response.
  split; [exact Htarget|]. split; [exact Hentity|].
  split; [|split; [reflexivity | exact E7]].
  unfold try_except, bind, call, emit, lift, ret in E6. cbn in E6.
  destruct (get_message_reactions_list w entity msg_id limit) as [r| |];
    cbn in E6; inversion E6; subst. reflexivity.
Qed.

(* ===================================================================== *)
(** ** The records of a completed job *)
(* ===================================================================== *)

(** X1. The records of a completed members job are those of the
    participants that the iterator yielded, one for each and in the
    same order, each flagged as admin by membership in the identifiers
    that the administrators' iteration yielded; the title is the one
    of the resolved chat (empty for an entity without title). *)
Theorem members_job_rows (w : World) (link : str) (limit : Z)
    (title : str) (rows : list Row) :
  In (finished_signal title rows) (events_of Members w link limit) ->
  exists entity,
    get_entity w (_clean_link link) = Ok entity /\
    title = getattr_title entity [] /\
    rows = List.map
             (member_row
                (admin_set (it_items (iter_participants w entity true None))))
             (it_items (iter_participants w entity false (Some limit))).
Proof. apply members_finished_inv. Qed.

Lemma members_job_rows_witness :
  In (finished_signal
        (completed_title
           (events_of Members admin_failure_world (u8 "t.me/chat") 10))
        (completed_rows
           (events_of Members admin_failure_world (u8 "t.me/chat") 10)))
     (events_of Members admin_failure_world (u8 "t.me/chat") 10) /\
  exists entity,
    get_entity admin_failure_world (_clean_link (u8 "t.me/chat")) = Ok entity /\
    completed_title
      (events_of Members admin_failure_world (u8 "t.me/chat") 10)
    = getattr_title entity [] /\
    completed_rows
      (events_of Members admin_failure_world (u8 "t.me/chat") 10)
    = List.map
        (member_row
           (admin_set
              (it_items (iter_participants admin_failure_world entity true None))))
        (it_items (iter_participants admin_failure_world entity false (Some 10%Z))).
Proof.
  assert (H : In (finished_signal
        (completed_title
           (events_of Members admin_failure_world (u8 "t.me/chat") 10))
        (completed_rows
           (events_of Members admin_failure_world (u8 "t.me/chat") 10)))
     (events_of Members admin_failure_world (u8 "t.me/chat") 10)).
  { apply outcome_completed_in. vm_compute. reflexivity. }
  split; [exact H|].
  exact (members_job_rows admin_failure_world (u8 "t.me/chat") 10 _ _ H).
Defined.

Lemma message_row_keys (m : Message) (sender : option Sender) (row : Row) :
  message_row m sender = Ok row -> keys row = columns Messages.
Proof.
  unfold message_row, author_fields, and_then.
  destruct sender as [[u|id uname]|]; cbn; intros H; inversion H; reflexivity.
Qed.

Lemma comment_row_keys (m : Message) (sender : option Sender) (row : Row) :
  comment_row m sender = Ok row -> keys row = columns Comments.
Proof.
  unfold comment_row, author_fields, and_then.
  destruct sender as [[u|id uname]|]; cbn; intros H; inversion H; reflexivity.
Qed.

Lemma Forall2_right {A B} (R : A -> B -> Prop) (P : B -> Prop)
    (l : list A) (k : list B) :
  (forall a b, R a b -> P b) -> Forall2 R l k -> Forall P k.
Proof. intros H. induction 1; constructor; eauto. Qed.

Lemma Forall2_left {A B} (R : A -> B -> Prop) (P : A -> Prop)
    (l : list A) (k : list B) :
  (forall a b, R a b -> P a) -> Forall2 R l k -> Forall P l.
Proof. intros H. induction 1; constructor; eauto. Qed.

(** X2. Whatever the collector, every record of a completed job has
    the same keys in the same order: the columns of the collector.
    The table and the CSV header, which are taken from the first
    record, therefore fit every record. *)
Theorem job_rows_uniform (c : Collector) (w : World) (link : str)
    (limit : Z) (title : str) (rows : list Row) :
  In (finished_signal title rows) (events_of c w link limit) ->
  Forall (fun row => keys row = columns c) rows.
Proof.
  intros Hin. destruct c.
  - apply members_finished_inv in Hin as (entity & _ & _ & ->).
    apply List.Forall_forall. intros row Hrow.
    apply in_map_iff in Hrow as (user & <- & _). reflexivity.
  - apply messages_finished_inv in Hin as (entity & _ & _ & Hrows).
    eapply Forall2_right; [|exact Hrows].
    intros m row (sender & _ & Hmake). eapply message_row_keys, Hmake.
  - apply comments_finished_inv in Hin
      as (channel_part & msg_id & entity & _ & _ & _ & Hrows).
    eapply Forall2_right; [|exact Hrows].
    intros m row (sender & _ & Hmake). eapply comment_row_keys, Hmake.
  - apply reactions_finished_inv in Hin
      as (channel_part & msg_id & entity & response & _ & _ & _ & _ & Hrows).
    eapply Forall2_right; [|exact Hrows].
    intros user row (emoji & _ & ->). reflexivity.
Qed.

Lemma job_rows_uniform_witness :
  In (finished_signal
        (completed_title
           (events_of Messages messages_world (u8 "t.me/chat") 10))
        (completed_rows
           (events_of Messages messages_world (u8 "t.me/chat") 10)))
     (events_of Messages messages_world (u8 "t.me/chat") 10) /\
  Forall (fun row => keys row = columns Messages)
    (completed_rows (events_of Messages messages_world (u8 "t.me/chat") 10)).
Proof.
  assert (H : In (finished_signal
        (completed_title
           (events_of Messages messages_world (u8 "t.me/chat") 10))
        (completed_rows
           (events_of Messages messages_world (u8 "t.me/chat") 10)))
     (events_of Messages messages_world (u8 "t.me/chat") 10)).
  { apply outcome_completed_in. vm_compute. reflexivity. }
  split; [exact H|].
  exact (job_rows_uniform Messages messages_world (u8 "t.me/chat") 10 _ _ H).
Defined.

(** X3. With a limit of at least one, a completed reactions job has
    made one record for each of the first [limit] users of the
    response, in their order: [min(limit, number of users)] records,
    each with the emoticon found for its user. *)
Theorem reactions_job_rows (w : World) (link : str) (limit : Z)
    (title : str) (rows : list Row) :
  (1 <= limit)%Z ->
  In (finished_signal title rows) (events_of Reactions w link limit) ->
  exists channel_part msg_id entity response,
    parse_post_link (int_other w) link = Ok (Some (channel_part, msg_id)) /\
    get_entity w channel_part = Ok entity /\
    get_message_reactions_list w entity msg_id limit = Ok response /\
    Forall2 (reaction_row_of (resp_reactions response))
      (firstn (Z.to_nat limit) (resp_users response)) rows /\
    len rows = Z.min limit (len (resp_users response)).
Proof.
  intros Hlimit Hin.
  apply reactions_finished_inv in Hin
    as (channel_part & msg_id & entity & response & H1 & H2 & H3 & _ & Hrows).
  exists channel_part, msg_id, entity, response.
  unfold reaction_rounds in Hrows.
  replace (Z.max 1 limit) with limit in Hrows by lia.
  repeat (split; [assumption|]).
  apply Forall2_length in Hrows. unfold len. rewrite <- Hrows.
  rewrite length_firstn. lia.
Qed.

Lemma reactions_job_rows_witness :
  (1 <= 2)%Z /\
  In (finished_signal
        (completed_title
           (events_of Reactions three_reactors_world (u8 "ch/42") 2))
        (completed_rows
           (events_of Reactions three_reactors_world (u8 "ch/42") 2)))
     (events_of Reactions three_reactors_world (u8 "ch/42") 2) /\
  len (completed_rows
         (events_of Reactions three_reactors_world (u8 "ch/42") 2)) = 2%Z.
Proof.
  assert (H : In (finished_signal
        (completed_title
           (events_of Reactions three_reactors_world (u8 "ch/42") 2))
        (completed_rows
           (events_of Reactions three_reactors_world (u8 "ch/42") 2)))
     (events_of Reactions three_reactors_world (u8 "ch/42") 2)).
  { apply outcome_completed_in. vm_compute. reflexivity. }
  assert (Hl : (1 <= 2)%Z) by discriminate.
  split; [exact Hl|]. split; [exact H|].
  destruct (reactions_job_rows three_reactors_world (u8 "ch/42") 2 _ _ Hl H)
    as (cp & id & en & resp & _ & _ & Hresp & _ & Hlen).
  rewrite Hlen. injection Hresp as <-. reflexivity.
Defined.

(** The emoticons of that run: Bob's reaction, and the default for Eve,
    who has none in the response. *)
Example three_reactors_rows :
  List.map (row_get (u8 "Emoji"))
    (completed_rows (events_of Reactions three_reactors_world (u8 "ch/42") 2))
  = [Some (VStr (u8 "👍")); Some (VStr (u8 "🧩"))].
Proof. vm_compute. reflexivity. Qed.

Lemma row_of_plain_sender (make : Message -> option Sender -> Res Row)
    (m : Message) (row : Row) :
  (forall id uname, make m (Some (SenderChannel id uname)) <> Ok row) ->
  row_of make m row -> plain_sender m.
Proof.
  intros Hch (sender & Hs & Hmake).
  destruct sender as [[u|id uname]|].
  - right. exists u. exact Hs.
  - exfalso. exact (Hch id uname Hmake).
  - left. exact Hs.
Qed.

(** X4. A messages or comments job completes only if every message
    that the iterator yielded had its sender resolved to nothing or to
    a user: a message whose sender is a channel (its record needs
    [first_name], which a channel does not have) or whose
    [get_sender()] fails keeps the job from emitting
    [finished_signal]. *)
Theorem completed_job_has_plain_senders (w : World) (link : str)
    (limit : Z) (title : str) (rows : list Row) :
  (In (finished_signal title rows) (events_of Messages w link limit) ->
   exists entity,
     get_entity w (_clean_link link) = Ok entity /\
     Forall plain_sender (it_items (iter_messages w entity limit None))) /\
  (In (finished_signal title rows) (events_of Comments w link limit) ->
   exists channel_part msg_id entity,
     parse_post_link (int_other w) link = Ok (Some (channel_part, msg_id)) /\
     get_entity w channel_part = Ok entity /\
     Forall plain_sender
       (it_items (iter_messages w entity limit (Some msg_id)))).
Proof.
  split; intros Hin.
  - apply messages_finished_inv in Hin as (entity & He & _ & Hrows).
    exists entity. split; [exact He|].
    eapply Forall2_left; [|exact Hrows].
    intros m row. apply row_of_plain_sender. intros id uname H.
    discriminate H.
  - apply comments_finished_inv in Hin
      as (channel_part & msg_id & entity & Hl & He & _ & Hrows).
    exists channel_part, msg_id, entity. split; [exact Hl|].
    split; [exact He|].
    eapply Forall2_left; [|exact Hrows].
    intros m row. apply row_of_plain_sender. intros id uname H.
    discriminate H.
Qed.

Lemma completed_job_has_plain_senders_witness :
  In (finished_signal
        (completed_title
           (events_of Messages messages_world (u8 "t.me/chat") 10))
        (completed_rows
           (events_of Messages messages_world (u8 "t.me/chat") 10)))
     (events_of Messages messages_world (u8 "t.me/chat") 10) /\
  exists entity,
    get_entity messages_world (_clean_link (u8 "t.me/chat")) = Ok entity /\
    Forall plain_sender (it_items (iter_messages messages_world entity 10 None)).
Proof.
  assert (H : In (finished_signal
        (completed_title
           (events_of Messages messages_world (u8 "t.me/chat") 10))
        (completed_rows
           (events_of Messages messages_world (u8 "t.me/chat") 10)))
     (events_of Messages messages_world (u8 "t.me/chat") 10)).
  { apply outcome_completed_in. vm_compute. reflexivity. }
  split; [exact H|].
  exact (proj1 (completed_job_has_plain_senders messages_world
                  (u8 "t.me/chat") 10 _ _) H).
Defined.

(** A chat with a post of a channel: the job fails at that message. *)
Example channel_post_fails :
  outcome (events_of Messages channel_post_world (u8 "t.me/chat") 10)
  = Failed (u8 "❌ Критическая ошибка: 'Channel' object has no attribute 'first_name'").
Proof. vm_compute. reflexivity. Qed.

(* ===================================================================== *)
(** ** What [ensure_auth] returns *)
(* ===================================================================== *)

Section Sound.

Variable w : World.

Lemma sound_ret_false : sound w (ret false).
Proof. intros st H. discriminate H. Qed.

Lemma sound_hang : sound w hang.
Proof. intros st H. discriminate H. Qed.

Lemma sound_raise (e : Exn) : sound w (raise e).
Proof. intros st H. discriminate H. Qed.

Lemma sound_ret_true :
  is_user_authorized w = Ok true \/ sign_in_accepted w ->
  sound w (ret true).
Proof. intros H st _. exact H. Qed.

Lemma sound_bind {A} (m : M A) (f : A -> M bool) :
  (forall a, sound w (f a)) -> sound w (bind m f).
Proof.
  intros Hf st. unfold bind.
  destruct (m st) as [[[a|e|] st1] t1]; cbn; try discriminate.
  specialize (Hf a st1). destruct (f a st1) as [[r st2] t2]. exact Hf.
Qed.

(** The continuation of a call only runs on the value that the call
    gave. *)
Lemma sound_bind_call {A} (c : Call) (r : Res A) (f : A -> M bool) :
  (forall a, r = Ok a -> sound w (f a)) -> sound w (bind (call c r) f).
Proof.
  intros Hf st. unfold bind, call, emit, lift.
  destruct r as [a|e|]; cbn; try discriminate.
  specialize (Hf a eq_refl st). destruct (f a st) as [[r st2] t2]. exact Hf.
Qed.

Lemma sound_try_except (m : M bool) (h : Exn -> M bool) :
  sound w m -> (forall e, sound w (h e)) -> sound w (try_except m h).
Proof.
  intros Hm Hh st. unfold try_except. specialize (Hm st).
  destruct (m st) as [[[a|e|] st1] t1]; cbn in *; try exact Hm.
  specialize (Hh e st1). destruct (h e st1) as [[r st2] t2]. exact Hh.
Qed.

End Sound.

Ltac sound_step :=
  lazymatch goal with
  | |- sound _ (bind (call _ _) _) => apply sound_bind_call; intros ? ?
  | |- sound _ (bind _ _) => apply sound_bind; intros ?
  | |- sound _ (try_except _ _) => apply sound_try_except; [|intros ?]
  | |- sound _ (ret false) => apply sound_ret_false
  | |- sound _ hang => apply sound_hang
  | |- sound _ (raise _) => apply sound_raise
  | |- sound _ (if ?b then _ else _) => destruct b eqn:?
  | |- sound _ (match ?x with _ => _ end) => destruct x eqn:?
  | |- sound _ (let _ := _ in _) => cbv zeta
  end.

Lemma ensure_auth_sound (w : World) (floods : list Z) :
  sound w (ensure_auth w floods).
Proof.
  induction floods as [|seconds floods IH]; cbn [ensure_auth];
    repeat sound_step; try exact IH;
    apply sound_ret_true; subst;
    repeat match goal with x : unit |- _ => destruct x end;
    first [ left; assumption
          | right; eexists _, _; left; eassumption
          | right; eexists _, _; right; split;
            [eassumption | eexists; eassumption] ].
Qed.

(** X5. [ensure_auth] never returns [True] on its own authority: when
    it does, the client had reported the session as authorized, or
    had accepted the code, or had asked for the password and accepted
    it. *)
Theorem ensure_auth_true_is_backed (w : World) (floods : list Z) (st : St) :
  fst (fst (ensure_auth w floods st)) = Ok true ->
  is_user_authorized w = Ok true \/ sign_in_accepted w.
Proof. apply ensure_auth_sound. Qed.

Lemma ensure_auth_true_is_backed_witness :
  fst (fst (ensure_auth login_world [7%Z] init_st)) = Ok true /\
  (is_user_authorized login_world = Ok true \/ sign_in_accepted login_world).
Proof.
  split; [vm_compute; reflexivity|].
  apply (ensure_auth_true_is_backed login_world [7%Z] init_st). vm_compute. reflexivity.
Defined.

(* ===================================================================== *)
(** ** Records of messages without a sender *)
(* ===================================================================== *)

Lemma quiet_progress_signal (text : str) : quiet (progress_signal text).
Proof. split; reflexivity. Qed.

Lemma quiet_progress_value (n : Z) : quiet (progress_value n).
Proof. split; reflexivity. Qed.

Lemma quiet_remote (c : Call) : quiet (Remote c).
Proof. split; reflexivity. Qed.

(** The buffering loop of lines 292-299 and 355-363, when nobody stops
    the job: every item is buffered, and the loop ends as the iterator
    does. *)
Lemma runs_collect_loop (w : World) (limit : Z) (caption : str)
    (capped : bool) (ending : option Exn) (items acc : list Message)
    (st : St) :
  stop_after w = None ->
  exists st' t,
    runs (async_for_keep items ending
            (fun msg messages =>
               r <- is_running w ;;
               if negb r then ret (Break messages) else
               let messages := messages ++ [msg] in
               (if (len messages mod 50 =? 0)%Z then
                  emit (progress_signal (caption ++ of_Z (len messages))) ;;
                  emit (progress_value
                          (if capped then Z.min (len messages) limit
                           else len messages))
                else ret tt) ;;
               ret (Continue messages))
            acc)
      st (acc ++ items, ending) st' t /\
    Forall quiet t.
Proof.
  intros Hstop. revert acc st.
  induction items as [|x rest IH]; intros acc st.
  - exists st, []. split; [|constructor].
    unfold runs. cbn. rewrite app_nil_r. reflexivity.
  - destruct (IH (acc ++ [x]) (count_read st)) as (st' & t & Hrun & Hq).
    rewrite <- app_assoc in Hrun. cbn [app] in Hrun.
    cbn [async_for_keep].
    destruct ((len (acc ++ [x]) mod 50 =? 0)%Z) eqn:E.
    + eexists st', _. split.
      * eapply runs_bind; [|].
        { eapply runs_bind; [apply runs_is_running; exact Hstop|].
          cbv beta iota zeta delta [negb]. try rewrite E.
          eapply runs_bind; [|apply runs_ret].
          eapply runs_bind; apply runs_emit. }
        cbv iota beta. exact Hrun.
      * cbn [app]. constructor; [apply quiet_progress_signal|].
        constructor; [apply quiet_progress_value|]. exact Hq.
    + eexists st', _. split.
      * eapply runs_bind; [|].
        { eapply runs_bind; [apply runs_is_running; exact Hstop|].
          cbv beta iota zeta delta [negb]. try rewrite E.
          eapply runs_bind; apply runs_ret. }
        cbv iota beta. exact Hrun.
      * cbn [app]. exact Hq.
Qed.

Lemma runs_collect_messages (w : World) (entity : Entity) (limit : Z)
    (reply_to : option Z) (caption : str) (capped : bool) (st : St) :
  stop_after w = None ->
  it_ending (iter_messages w entity limit reply_to) = None ->
  exists st' t,
    runs (collect_messages w entity limit reply_to caption capped) st
      (it_items (iter_messages w entity limit reply_to)) st' t /\
    Forall quiet t.
Proof.
  intros Hstop Hend.
  destruct (runs_collect_loop w limit caption capped None
              (it_items (iter_messages w entity limit reply_to)) [] st Hstop)
    as (st' & t & Hrun & Hq).
  cbn [app] in Hrun.
  eexists st', _. split.
  - unfold collect_messages, async_for. rewrite Hend.
    eapply runs_bind; [apply runs_emit|].
    eapply runs_bind; [exact Hrun|]. cbn [fst snd]. apply runs_ret.
  - cbn [app]. constructor; [apply quiet_remote|].
    rewrite app_nil_r. exact Hq.
Qed.

(** A sender none or a user gives a record. *)
Lemma plain_sender_row (make : Message -> option Sender -> Res Row)
    (m : Message) :
  (forall reply, exists row, make reply None = Ok row) ->
  (forall reply u, exists row, make reply (Some (SenderUser u)) = Ok row) ->
  plain_sender m ->
  exists sender row, msg_get_sender m = Ok sender /\ make m sender = Ok row.
Proof.
  intros Hnone Huser [Hs|[u Hs]].
  - destruct (Hnone m) as [row Hrow]. eauto.
  - destruct (Huser m u) as [row Hrow]. eauto.
Qed.

(** The loop of lines 301-313 and 365-376 over messages whose records
    can all be made. *)
Lemma runs_transform_loop (make : Message -> option Sender -> Res Row)
    (messages : list Message) (acc : list Row) (st : St) :
  Forall (fun m => exists sender row,
            msg_get_sender m = Ok sender /\ make m sender = Ok row)
    messages ->
  exists rows t,
    runs (async_for_keep messages None
            (fun m parsed =>
               sender <- call (CallGetSender (msg_id m)) (msg_get_sender m) ;;
               record <- lift (make m sender) ;;
               ret (Continue (parsed ++ [record])))
            acc)
      st (rows, None) st t /\
    Forall quiet t.
Proof.
  intros Hall. revert acc.
  induction Hall as [|m rest (sender & row & Hs & Hrow) _ IH]; intros acc.
  - exists acc, []. split; [reflexivity | constructor].
  - destruct (IH (acc ++ [row])) as (rows & t & Hrun & Hq).
    cbn [async_for_keep]. eexists rows, _. split.
    + eapply runs_bind; [|].
      { eapply runs_bind; [apply runs_call; exact Hs|].
        eapply runs_bind; [apply runs_lift; exact Hrow|]. apply runs_ret. }
      cbv iota beta. exact Hrun.
    + cbn [app]. constructor; [apply quiet_remote | exact Hq].
Qed.

Lemma runs_transform_messages (make : Message -> option Sender -> Res Row)
    (messages : list Message) (st : St) :
  Forall (fun m => exists sender row,
            msg_get_sender m = Ok sender /\ make m sender = Ok row)
    messages ->
  exists rows t,
    runs (transform_messages make messages) st rows st t /\
    Forall quiet t.
Proof.
  intros Hall.
  destruct (runs_transform_loop make messages [] st Hall)
    as (rows & t & Hrun & Hq).
  eexists rows, _. split.
  - unfold transform_messages, for_in, async_for. cbn [it_items it_ending].
    eapply runs_bind; [exact Hrun|]. cbn [fst snd]. apply runs_ret.
  - rewrite app_nil_r. exact Hq.
Qed.

Lemma message_row_none (m : Message) :
  exists row, message_row m None = Ok row.
Proof. eexists. reflexivity. Qed.

Lemma message_row_user (m : Message) (u : User) :
  exists row, message_row m (Some (SenderUser u)) = Ok row.
Proof. eexists. reflexivity. Qed.

Lemma comment_row_none (m : Message) :
  exists row, comment_row m None = Ok row.
Proof. eexists. reflexivity. Qed.

Lemma comment_row_user (m : Message) (u : User) :
  exists row, comment_row m (Some (SenderUser u)) = Ok row.
Proof. eexists. reflexivity. Qed.

(** A messages job that nobody stops, whose chat resolves and whose
    messages all have no sender or a user as sender, completes. *)
Lemma messages_job_completes (w : World) (link : str) (limit : Z)
    (entity : Entity) :
  stop_after w = None -> authenticates w ->
  get_entity w (_clean_link link) = Ok entity ->
  it_ending (iter_messages w entity limit None) = None ->
  Forall plain_sender (it_items (iter_messages w entity limit None)) ->
  exists rows,
    completes (events_of Messages w link limit)
      (u8 "Сообщения чата " ++ getattr_title entity (_clean_link link)) rows.
Proof.
  intros Hstop Hauth Hentity Hend Hplain.
  destruct (authenticates_run w Hauth) as (st2 & t2 & E2 & Hquiet).
  destruct (runs_collect_messages w entity limit None
              (u8 "🔄 Получено сообщений: ") false st2 Hstop Hend)
    as (st3 & t3 & E3 & Hq3).
  destruct (runs_transform_messages message_row
              (it_items (iter_messages w entity limit None)) st3)
    as (rows & t4 & E4 & Hq4).
  { eapply Forall_impl; [exact Hplain|]. intros m.
    apply plain_sender_row; [apply message_row_none | apply message_row_user]. }
  exists rows.
  unfold events_of, run, parse_of, MessagesParserThread.parse.
  assert (Hbody : exists st1 t1,
    runs (MessagesParserThread.parse_body w link limit) init_st tt st1 t1 /\
    forall extra, Forall no_error extra ->
      completes (t1 ++ extra)
        (u8 "Сообщения чата " ++ getattr_title entity (_clean_link link))
        rows).
  { eexists _, _. split.
    - unfold MessagesParserThread.parse_body.
      eapply runs_bind; [apply runs_is_running; exact Hstop|]. cbn [negb].
      eapply runs_bind; [apply runs_emit|].
      eapply runs_bind; [exact E2|]. cbn [negb]. cbv zeta.
      eapply runs_bind; [apply runs_call; exact Hentity|].
      eapply runs_bind; [apply runs_emit|].
      eapply runs_bind; [apply runs_emit|].
      eapply runs_bind; [exact E3|].
      eapply runs_bind; [exact E4|].
      eapply runs_bind; [apply runs_is_running; exact Hstop|].
      cbv iota. apply runs_emit.
    - intros extra Hextra. rewrite <- !app_assoc. completes_all. }
  destruct Hbody as (st1 & t1 & Hrun & Hcomp).
  destruct (job_ok_events w _ _ _ _ Hrun) as (extra & -> & Hextra).
  apply Hcomp. exact Hextra.
Qed.

(** The same for a comments job whose post link parses. *)
Lemma comments_job_completes (w : World) (link channel_part : str)
    (limit msg_id : Z) (entity : Entity) :
  stop_after w = None -> authenticates w ->
  parse_post_link (int_other w) link = Ok (Some (channel_part, msg_id)) ->
  get_entity w channel_part = Ok entity ->
  it_ending (iter_messages w entity limit (Some msg_id)) = None ->
  Forall plain_sender
    (it_items (iter_messages w entity limit (Some msg_id))) ->
  exists rows,
    completes (events_of Comments w link limit)
      (u8 "Комментарии к посту #" ++ of_Z msg_id) rows.
Proof.
  intros Hstop Hauth Hlink Hentity Hend Hplain.
  destruct (authenticates_run w Hauth) as (st2 & t2 & E2 & Hquiet).
  destruct (runs_collect_messages w entity limit (Some msg_id)
              (u8 "🔄 Получено комментариев: ") true st2 Hstop Hend)
    as (st3 & t3 & E3 & Hq3).
  destruct (runs_transform_messages comment_row
              (it_items (iter_messages w entity limit (Some msg_id))) st3)
    as (rows & t4 & E4 & Hq4).
  { eapply Forall_impl; [exact Hplain|]. intros m.
    apply plain_sender_row; [apply comment_row_none | apply comment_row_user]. }
  exists rows.
  unfold events_of, run, parse_of, CommentsParserThread.parse.
  assert (Hbody : exists st1 t1,
    runs (CommentsParserThread.parse_body w link limit) init_st tt st1 t1 /\
    forall extra, Forall no_error extra ->
      completes (t1 ++ extra) (u8 "Комментарии к посту #" ++ of_Z msg_id)
        rows).
  { eexists _, _. split.
    - unfold CommentsParserThread.parse_body.
      eapply runs_bind; [apply runs_is_running; exact Hstop|]. cbn [negb].
      eapply runs_bind; [apply runs_emit|].
      eapply runs_bind; [exact E2|]. cbn [negb].
      eapply runs_bind; [apply runs_lift; exact Hlink|]. cbv iota beta.
      eapply runs_bind; [apply runs_call; exact Hentity|].
      eapply runs_bind; [apply runs_emit|].
      eapply runs_bind; [apply runs_emit|].
      eapply runs_bind; [exact E3|].
      eapply runs_bind; [exact E4|].
      eapply runs_bind; [apply runs_is_running; exact Hstop|].
      cbv iota. apply runs_emit.
    - intros extra Hextra. rewrite <- !app_assoc. completes_all. }
  destruct Hbody as (st1 & t1 & Hrun & Hcomp).
  destruct (job_ok_events w _ _ _ _ Hrun) as (extra & -> & Hextra).
  apply Hcomp. exact Hextra.
Qed.

(** The record made of a message has its blank author entries when the
    message has no sender. *)
Lemma row_of_blank (make : Message -> option Sender -> Res Row)
    (m : Message) (row : Row) :
  (forall reply r, make reply None = Ok r -> blank_author r) ->
  row_of make m row ->
  row_of make m row /\ (msg_get_sender m = Ok None -> blank_author row).
Proof.
  intros Hblank Hrow. split; [exact Hrow|]. intros Hnone.
  destruct Hrow as (sender & Hs & Hmake).
  rewrite Hnone in Hs. inversion Hs; subst. exact (Hblank m row Hmake).
Qed.

(** C10. In the messages and in the comments collector, a message
    whose [get_sender()] gave [None] gets a record, with the empty
    string as its Author ID, Username, First Name and Last Name.
    The dictionary is built without an exception for such a message;
    a job that nobody stops, whose target resolves, whose iterator
    ends without an exception and whose messages all have no sender
    or a user as sender completes without an error, with one record
    for each message in the same order, blank in the author entries
    for each message without a sender; and the records of any
    completed job are of that form. *)
Theorem unresolved_sender_blank_author (w : World) (link : str)
    (limit : Z) :
  (forall m,
     (exists row, message_row m None = Ok row /\ blank_author row) /\
     (exists row, comment_row m None = Ok row /\ blank_author row)) /\
  (stop_after w = None -> authenticates w ->
   (forall entity,
      get_entity w (_clean_link link) = Ok entity ->
      it_ending (iter_messages w entity limit None) = None ->
      Forall plain_sender (it_items (iter_messages w entity limit None)) ->
      exists rows,
        completes (events_of Messages w link limit)
          (u8 "Сообщения чата " ++ getattr_title entity (_clean_link link))
          rows /\
        Forall2 (fun m row =>
                   row_of message_row m row /\
                   (msg_get_sender m = Ok None -> blank_author row))
          (it_items (iter_messages w entity limit None)) rows) /\
   (forall channel_part msg_id entity,
      parse_post_link (int_other w) link = Ok (Some (channel_part, msg_id)) ->
      get_entity w channel_part = Ok entity ->
      it_ending (iter_messages w entity limit (Some msg_id)) = None ->
      Forall plain_sender
        (it_items (iter_messages w entity limit (Some msg_id))) ->
      exists rows,
        completes (events_of Comments w link limit)
          (u8 "Комментарии к посту #" ++ of_Z msg_id) rows /\
        Forall2 (fun m row =>
                   row_of comment_row m row /\
                   (msg_get_sender m = Ok None -> blank_author row))
          (it_items (iter_messages w entity limit (Some msg_id))) rows)) /\
  (forall title rows,
     In (finished_signal title rows) (events_of Messages w link limit) ->
     exists entity,
       get_entity w (_clean_link link) = Ok entity /\
       Forall2 (fun m row =>
                  row_of message_row m row /\
                  (msg_get_sender m = Ok None -> blank_author row))
         (it_items (iter_messages w entity limit None)) rows) /\
  (forall title rows,
     In (finished_signal title rows) (events_of Comments w link limit) ->
     exists channel_part msg_id entity,
       parse_post_link (int_other w) link
       = Ok (Some (channel_part, msg_id)) /\
       get_entity w channel_part = Ok entity /\
       Forall2 (fun m row =>
                  row_of comment_row m row /\
                  (msg_get_sender m = Ok None -> blank_author row))
         (it_items (iter_messages w entity limit (Some msg_id))) rows).
Proof.
  assert (Hmessages : forall title rows,
    In (finished_signal title rows) (events_of Messages w link limit) ->
    exists entity,
      get_entity w (_clean_link link) = Ok entity /\
      Forall2 (fun m row =>
                 row_of message_row m row /\
                 (msg_get_sender m = Ok None -> blank_author row))
        (it_items (iter_messages w entity limit None)) rows).
  { intros title rows Hin.
    apply messages_finished_inv in Hin as (entity & He & _ & Hrows).
    exists entity. split; [exact He|].
    eapply Forall2_impl; [exact Hrows|]. intros m row.
    apply row_of_blank. exact blank_author_message_row. }
  assert (Hcomments : forall title rows,
    In (finished_signal title rows) (events_of Comments w link limit) ->
    exists channel_part msg_id entity,
      parse_post_link (int_other w) link
      = Ok (Some (channel_part, msg_id)) /\
      get_entity w channel_part = Ok entity /\
      Forall2 (fun m row =>
                 row_of comment_row m row /\
                 (msg_get_sender m = Ok None -> blank_author row))
        (it_items (iter_messages w entity limit (Some msg_id))) rows).
  { intros title rows Hin.
    apply comments_finished_inv in Hin
      as (channel_part & msg_id & entity & Hl & He & _ & Hrows).
    exists channel_part, msg_id, entity.
    split; [exact Hl|]. split; [exact He|].
    eapply Forall2_impl; [exact Hrows|]. intros m row.
    apply row_of_blank. exact blank_author_comment_row. }
  split; [|split; [|split; [exact Hmessages | exact Hcomments]]].
  - intros m. split.
    + destruct (message_row_none m) as [row Hrow]. exists row.
      split; [exact Hrow|]. exact (blank_author_message_row m row Hrow).
    + destruct (comment_row_none m) as [row Hrow]. exists row.
      split; [exact Hrow|]. exact (blank_author_comment_row m row Hrow).
  - intros Hstop Hauth. split.
    + intros entity Hentity Hend Hplain.
      destruct (messages_job_completes w link limit entity
                  Hstop Hauth Hentity Hend Hplain) as [rows Hcomp].
      exists rows. split; [exact Hcomp|].
      destruct (Hmessages _ rows (outcome_completed_in _ _ _ (proj1 Hcomp)))
        as (entity' & Hentity' & Hrows).
      rewrite Hentity in Hentity'. injection Hentity' as <-. exact Hrows.
    + intros channel_part msg_id entity Hlink Hentity Hend Hplain.
      destruct (comments_job_completes w link channel_part limit msg_id
                  entity Hstop Hauth Hlink Hentity Hend Hplain)
        as [rows Hcomp].
      exists rows. split; [exact Hcomp|].
      destruct (Hcomments _ rows (outcome_completed_in _ _ _ (proj1 Hcomp)))
        as (channel_part' & msg_id' & entity' & Hlink' & Hentity' & Hrows).
      rewrite Hlink in Hlink'. injection Hlink' as <- <-.
      rewrite Hentity in Hentity'. injection Hentity' as <-. exact Hrows.
Qed.

Lemma unresolved_sender_blank_author_witness :
  stop_after messages_world = None /\
  authenticates messages_world /\
  (exists rows,
     completes (events_of Messages messages_world (u8 "t.me/chat") 10)
       (u8 "Сообщения чата Chat") rows /\
     Forall2 (fun m row =>
                row_of message_row m row /\
                (msg_get_sender m = Ok None -> blank_author row))
       [ mk_message 1 "hi" (Some (SenderUser bob));
         mk_message 2 "anon" None ] rows) /\
  (exists rows,
     completes (events_of Comments messages_world (u8 "chat/42") 10)
       (u8 "Комментарии к посту #42") rows /\
     Forall2 (fun m row =>
                row_of comment_row m row /\
                (msg_get_sender m = Ok None -> blank_author row))
       [ mk_message 1 "hi" (Some (SenderUser bob));
         mk_message 2 "anon" None ] rows).
Proof.
  assert (Hstop : stop_after messages_world = None) by reflexivity.
  assert (Hauth : authenticates messages_world)
    by (vm_compute; reflexivity).
  assert (Hplain : Forall plain_sender
                     [ mk_message 1 "hi" (Some (SenderUser bob));
                       mk_message 2 "anon" None ]).
  { constructor; [right; exists bob; reflexivity|].
    constructor; [left; reflexivity | constructor]. }
  split; [exact Hstop|]. split; [exact Hauth|]. split.
  - exact (proj1 (proj1 (proj2 (unresolved_sender_blank_author
                                  messages_world (u8 "t.me/chat") 10))
                    Hstop Hauth)
             (EntChat 5 (u8 "Chat")) eq_refl eq_refl Hplain).
  - exact (proj2 (proj1 (proj2 (unresolved_sender_blank_author
                                  messages_world (u8 "chat/42") 10))
                    Hstop Hauth)
             (u8 "chat") 42%Z (EntChat 5 (u8 "Chat"))
             eq_refl eq_refl eq_refl Hplain).
Defined.
